(** * a-better-chat: the clarification store of [ChatInterface.tsx]

    A shallow embedding of the React state owned by [ChatInterface]
    (the message list, the clarification list and the single active
    clarification), of the handlers that update it
    ([handleTextSelection], [handleClarificationSubmit],
    [handleCloseClarification]), of the submit guard of
    [ClarificationPanel.tsx] and of the selection capture of
    [AIMessage.tsx], followed by the properties of the clarification
    lifecycle that hold of this code. *)

From Stdlib Require Import List Bool Arith NArith ZArith Lia.
From Stdlib Require Import Ascii String DecimalString DecimalZ.
Import ListNotations.
Local Open Scope list_scope.

(* ================================================================== *)
(** ** JavaScript strings *)
(* ================================================================== *)

Module JsString.

(** A JavaScript string is a sequence of UTF-16 code units. *)
Definition codeunit := N.
Definition jsstring := list codeunit.

(** An ASCII literal of the source, as code units. *)
Definition str (s : string) : jsstring :=
  map N_of_ascii (list_ascii_of_string s).

Definition eqb (a b : jsstring) : bool :=
  if list_eq_dec N.eq_dec a b then true else false.

(** [!s] is true exactly for the empty string. *)
Definition truthy (s : jsstring) : bool :=
  match s with [] => false | _ :: _ => true end.

(** The code units [String.prototype.trim] strips: ECMAScript's
    WhiteSpace (TAB, VT, FF, ZWNBSP and the Unicode space separators)
    and LineTerminator (LF, CR, LS, PS). *)
Definition is_whitespace (c : codeunit) : bool :=
  ((9 <=? c) && (c <=? 13) || (c =? 32) || (c =? 160) || (c =? 5760)
   || (8192 <=? c) && (c <=? 8202) || (c =? 8232) || (c =? 8233)
   || (c =? 8239) || (c =? 8287) || (c =? 12288) || (c =? 65279))%N.

Fixpoint trimStart (s : jsstring) : jsstring :=
  match s with
  | c :: s' => if is_whitespace c then trimStart s' else s
  | [] => []
  end.

Definition trimEnd (s : jsstring) : jsstring :=
  rev (trimStart (rev s)).

Definition trim (s : jsstring) : jsstring :=
  trimEnd (trimStart s).

(** [s.slice(a, b)] for [0 <= a], [0 <= b]: the code units at the
    positions [a <= i < b] that exist. *)
Definition slice (a b : nat) (s : jsstring) : jsstring :=
  firstn (b - a) (skipn a s).

(** [n.toString()] for an integral number [n] in the range of
    [Date.now()]: the decimal digits, with a minus sign below zero. *)
Definition toString (n : Z) : jsstring :=
  str (NilEmpty.string_of_int (Z.to_int n)).

End JsString.

Import JsString.

(* ================================================================== *)
(** ** ChatInterface.tsx: the state and its handlers *)
(* ================================================================== *)

Module ChatInterface.

Inductive Role := user | assistant.

(** [interface Message] (the timestamp, used for display only, is
    left out). *)
Record Message := mkMessage {
  message_id : jsstring;
  role : Role;
  content : jsstring
}.

(** [status: 'pending' | 'completed'] *)
Inductive Status := pending | completed.

(** The string literal a status is in the source. *)
Definition status_literal (s : Status) : string :=
  match s with
  | pending => "pending"
  | completed => "completed"
  end.

(** [interface Clarification]; [response?: string] is an optional
    field. *)
Record Clarification := mkClarification {
  id : jsstring;
  messageId : jsstring;
  selectedText : jsstring;
  request : jsstring;
  response : option jsstring;
  status : Status
}.

(** The three [useState] cells of [ChatInterface] the clarification
    handlers read or write. *)
Record State := mkState {
  messages : list Message;
  clarifications : list Clarification;
  activeClarification : option Clarification
}.

(** The initial render: the greeting message, no clarification. *)
Definition greeting : jsstring :=
  str "Hello! I'm here to help. Try asking me about machine learning algorithms or any other topic. You can select text in my responses to get clarifications.".

Definition initial : State :=
  {| messages := [ {| message_id := str "1"; role := assistant; content := greeting |} ];
     clarifications := [];
     activeClarification := None |}.

(** The state setters, each with a value or with an updater of the
    previous value. *)
Definition setMessages (f : list Message -> list Message) (st : State) : State :=
  {| messages := f (messages st);
     clarifications := clarifications st;
     activeClarification := activeClarification st |}.

Definition setClarifications
    (f : list Clarification -> list Clarification) (st : State) : State :=
  {| messages := messages st;
     clarifications := f (clarifications st);
     activeClarification := activeClarification st |}.

Definition setActiveClarification
    (f : option Clarification -> option Clarification) (st : State) : State :=
  {| messages := messages st;
     clarifications := clarifications st;
     activeClarification := f (activeClarification st) |}.

(** *** handleTextSelection *)

(** The object literal of [handleTextSelection]; [now] is the value
    [Date.now()] returned. *)
Definition newClarification (now : Z) (mid text : jsstring) : Clarification :=
  {| id := toString now;
     messageId := mid;
     selectedText := text;
     request := [];
     response := None;
     status := pending |}.

Definition handleTextSelection (now : Z) (mid text : jsstring) (st : State) : State :=
  let clarification := newClarification now mid text in
  setActiveClarification (fun _ => Some clarification)
    (setClarifications (fun prev => prev ++ [clarification]) st).

(** *** handleClarificationSubmit *)

(** The body [JSON.stringify] sends to [/api/clarify]. *)
Record ClarifyBody := mkClarifyBody {
  body_selectedText : jsstring;
  userQuestion : jsstring;
  conversationContext : list jsstring
}.

Definition role_literal (r : Role) : jsstring :=
  match r with user => str "user" | assistant => str "assistant" end.

(** [messages.slice(-5).map(m => `${m.role}: ${m.content}`)] *)
Definition lastn {A} (n : nat) (l : list A) : list A :=
  skipn (List.length l - n) l.

Definition contextOf (ms : list Message) : list jsstring :=
  map (fun m => role_literal (role m) ++ str ": " ++ content m) (lastn 5 ms).

(** How the awaited [fetch] and [response.json()] end: the promise
    rejects (or anything in the [try] block throws), or a response
    arrives with its [ok] flag and the [response] field of its JSON. *)
Inductive FetchResult :=
| fetch_rejected
| fetch_response (ok : bool) (data_response : jsstring).

(** A call of [handleClarificationSubmit] suspended at
    [await fetch(...)]: what its closure holds. *)
Record Pending := mkPending {
  clarificationId : jsstring;
  snapshot : Clarification;      (* [const clarification = ...find(...)] *)
  body : ClarifyBody
}.

(** The synchronous part of the handler either returns at the guard
    or reaches the [await]. *)
Inductive Started :=
| returned
| awaiting (p : Pending).

Definition markPending (cid req : jsstring) (c : Clarification) : Clarification :=
  if eqb (id c) cid
  then {| id := id c; messageId := messageId c; selectedText := selectedText c;
          request := req; response := response c; status := pending |}
  else c.

Definition withResponse (r : jsstring) (c : Clarification) : Clarification :=
  {| id := id c; messageId := messageId c; selectedText := selectedText c;
     request := request c; response := Some r; status := completed |}.

Definition markCompleted (cid r : jsstring) (c : Clarification) : Clarification :=
  if eqb (id c) cid then withResponse r c else c.

Definition errorResponse : jsstring :=
  str "Sorry, I encountered an error while generating this clarification. Please try again.".

(** From the call to the [await]. [render] is the state of the render
    whose closure the handler is: [clarifications] and [messages] are
    read from it, the setters act on the current state [st]. *)
Definition handleClarificationSubmit_start
    (render : State) (cid req : jsstring) (st : State) : Started * State :=
  match find (fun c => eqb (id c) cid) (clarifications render) with
  | None => (returned, st)
  | Some clarification =>
      let st' := setClarifications (map (markPending cid req)) st in
      (awaiting {| clarificationId := cid;
                   snapshot := clarification;
                   body := {| body_selectedText := selectedText clarification;
                              userQuestion := req;
                              conversationContext := contextOf (messages render) |} |},
       st')
  end.

(** From the [await] to the end, on the state current by then. The
    second component is what [console.error] is given in the [catch]
    block. *)
Definition handleClarificationSubmit_resume
    (p : Pending) (res : FetchResult) (st : State) : State * list jsstring :=
  let cid := clarificationId p in
  match res with
  | fetch_response true r =>
      let st1 := setClarifications (map (markCompleted cid r)) st in
      (setActiveClarification
         (fun prev =>
            match prev with
            | Some a => if eqb (id a) cid
                        then Some (withResponse r (snapshot p))
                        else prev
            | None => prev
            end) st1,
       [])
  | _ =>
      (setClarifications (map (markCompleted cid errorResponse)) st,
       [str "Failed to get clarification:"])
  end.

(** *** handleCloseClarification *)

Definition handleCloseClarification (st : State) : State :=
  setActiveClarification (fun _ => None) st.

End ChatInterface.

Import ChatInterface.

(* ================================================================== *)
(** ** ClarificationPanel.tsx: the submit guard *)
(* ================================================================== *)

Module ClarificationPanel.

(** [handleSubmit] of the panel mounted for [clarification], with
    [req] in its text box: the call of [onSubmit] it makes, if any,
    and the text box afterwards. *)
Definition handleSubmit (clarification : Clarification) (req : jsstring)
    : option (jsstring * jsstring) * jsstring :=
  if truthy (trim req)
  then (Some (id clarification, req), [])
  else (None, req).

End ClarificationPanel.

(* ================================================================== *)
(** ** AIMessage.tsx: from a selection to [onTextSelection] *)
(* ================================================================== *)

Module AIMessage.

(** A selection range over the rendered text of the page, by the
    offsets of its two ends in the message's text, with the outcome
    of the containment test [isInMessage]. *)
Record Selection := mkSelection {
  startOffset : nat;
  endOffset : nat;
  isInMessage : bool
}.

(** [selection.toString()] *)
Definition selectionText (content : jsstring) (sel : Selection) : jsstring :=
  slice (startOffset sel) (endOffset sel) content.

(** The component's state and refs (the button's coordinates, which
    are floating-point geometry, are left out). *)
Record Ui := mkUi {
  selectedText : jsstring;
  showClarifyButton : bool;
  selectionRangeRef : option Selection;
  isClarifyingRef : bool
}.

Definition initialUi : Ui :=
  {| selectedText := []; showClarifyButton := false;
     selectionRangeRef := None; isClarifyingRef := false |}.

Definition reset (keepRange : bool) (ui : Ui) : Ui :=
  {| selectedText := []; showClarifyButton := false;
     selectionRangeRef := if keepRange then selectionRangeRef ui else None;
     isClarifyingRef := isClarifyingRef ui |}.

(** [handleMouseUp] with its deferred body. [onButton] is
    [target.closest('[data-clarify-button]')]; [sel] is [None] when
    there is no selection or it has no range. *)
Definition handleMouseUp (content : jsstring) (onButton : bool)
    (sel : option Selection) (ui : Ui) : Ui :=
  if onButton || isClarifyingRef ui then ui
  else match sel with
       | None => reset false ui
       | Some range =>
           let selected := trim (selectionText content range) in
           if negb (truthy selected) then reset true ui
           else if negb (isInMessage range) then reset true ui
           else {| selectedText := selected; showClarifyButton := true;
                   selectionRangeRef := Some range;
                   isClarifyingRef := isClarifyingRef ui |}
       end.

(** [handleClarify], with the timeout that restores the selection run
    to its end: the state of [ChatInterface] after [onTextSelection],
    the component's state, and the selection put back. [now] is what
    [Date.now()] returns inside [onTextSelection]. *)
Definition handleClarify (now : Z) (mid : jsstring) (sel : option Selection)
    (ui : Ui) (st : State) : State * Ui * option Selection :=
  if truthy (selectedText ui)
  then
    let rangeToRestore :=
      match sel with Some r => Some r | None => selectionRangeRef ui end in
    (handleTextSelection now mid (selectedText ui) st,
     {| selectedText := []; showClarifyButton := false;
        selectionRangeRef := selectionRangeRef ui; isClarifyingRef := false |},
     match rangeToRestore with Some r => Some r | None => sel end)
  else (st, ui, sel).

(** Selecting [range] in a message and activating the Clarify
    button: the two handlers in sequence, from a fresh component. *)
Definition clarifySelection (now : Z) (mid content : jsstring)
    (range : Selection) (st : State) : State :=
  let ui := handleMouseUp content false (Some range) initialUi in
  fst (fst (handleClarify now mid (Some range) ui st)).

End AIMessage.

(* ================================================================== *)
(** ** Finding a stored selection again *)
(* ================================================================== *)

Module Resolver.

(** [s.startsWith(p)] *)
Fixpoint startsWith (p s : jsstring) : bool :=
  match p, s with
  | [], _ => true
  | _ :: _, [] => false
  | a :: p', b :: s' => N.eqb a b && startsWith p' s'
  end.

(** The offset of the first occurrence of [p] in [s], counted from
    [from], if there is one. *)
Fixpoint indexOf (p s : jsstring) (from : nat) : option nat :=
  match s with
  | [] => if startsWith p [] then Some from else None
  | _ :: s' => if startsWith p s then Some from else indexOf p s' (S from)
  end.

(** A range of the content by its two offsets, or nothing. *)
Inductive Resolved :=
| NotFound
| Found (startOffset endOffset : nat).

(** Modelled from the spec: [resolve(anchor, currentContent)], which
    the source does not have: no function of the repository locates a
    stored selection again. Of an anchor the source keeps the message
    id and the text, in a [Clarification], and no offsets; so of the
    resolver of the specification, which first looks at the anchor's
    start offset and falls back to a search, it is the search that is
    modelled: the first occurrence of the anchor's text in the
    content, and [NotFound] if there is none. *)
Definition resolve (anchor : Clarification) (currentContent : jsstring) : Resolved :=
  match indexOf (selectedText anchor) currentContent 0 with
  | Some i => Found i (i + List.length (selectedText anchor))
  | None => NotFound
  end.

End Resolver.

(* ================================================================== *)
(** ** The running application *)
(* ================================================================== *)

(** The state of [ChatInterface], the calls of
    [handleClarificationSubmit] suspended at their [await], and what
    was written with [console.error]. An event is one handler run by
    the event loop; React renders again after each of them, so the
    handler an event reaches closes over the current state. Of the
    chat itself only the messages it appends are kept. *)
Record World := mkWorld {
  state : State;
  inflight : list Pending;
  console : list jsstring
}.

Definition initialWorld : World :=
  {| state := initial; inflight := []; console := [] |}.

Inductive Event :=
| clarify (now : Z) (mid text : jsstring)    (* [onTextSelection] *)
| submit (cid req : jsstring)                (* [onSubmit] *)
| panelSubmit (req : jsstring)               (* the panel's [handleSubmit] *)
| settle (k : nat) (res : FetchResult)       (* the k-th awaited fetch ends *)
| close                                      (* [onClose] *)
| message (m : Message).                     (* [setMessages(prev => [...prev, m])] *)

Definition remove_nth {A} (k : nat) (l : list A) : list A :=
  firstn k l ++ skipn (S k) l.

(** [onSubmit(cid, req)] called on the handler of the current render. *)
Definition doSubmit (cid req : jsstring) (w : World) : World :=
  let '(r, st') := handleClarificationSubmit_start (state w) cid req (state w) in
  {| state := st';
     inflight := inflight w ++ match r with awaiting p => [p] | returned => [] end;
     console := console w |}.

Definition step (w : World) (e : Event) : World :=
  match e with
  | clarify now mid text =>
      {| state := handleTextSelection now mid text (state w);
         inflight := inflight w; console := console w |}
  | submit cid req => doSubmit cid req w
  | panelSubmit req =>
      match activeClarification (state w) with
      | None => w
      | Some c =>
          match fst (ClarificationPanel.handleSubmit c req) with
          | Some (cid, r) => doSubmit cid r w
          | None => w
          end
      end
  | settle k res =>
      match nth_error (inflight w) k with
      | None => w
      | Some p =>
          let '(st', log) := handleClarificationSubmit_resume p res (state w) in
          {| state := st';
             inflight := remove_nth k (inflight w);
             console := console w ++ log |}
      end
  | close =>
      {| state := handleCloseClarification (state w);
         inflight := inflight w; console := console w |}
  | message m =>
      {| state := setMessages (fun prev => prev ++ [m]) (state w);
         inflight := inflight w; console := console w |}
  end.

Definition run (w : World) (es : list Event) : World := fold_left step es w.

Definition reachable (w : World) : Prop := exists es, w = run initialWorld es.

(* ================================================================== *)
(** ** Observations used by the statements *)
(* ================================================================== *)

(** The clarification the panel is mounted for:
    [<ClarificationPanel clarification={activeClarification} ... />]. *)
Definition presented (w : World) : list Clarification :=
  match activeClarification (state w) with
  | Some c => [c]
  | None => []
  end.

Definition stored (w : World) (i : nat) : option Clarification :=
  nth_error (clarifications (state w)) i.

Definition statuses (w : World) : list string :=
  map (fun c => status_literal (status c)) (clarifications (state w)).

(** The id an event submits, and the id whose awaited call it ends. *)
Definition submitted_id (w : World) (e : Event) : option jsstring :=
  match e with
  | submit cid _ => Some cid
  | panelSubmit req =>
      match activeClarification (state w) with
      | Some c => option_map fst (fst (ClarificationPanel.handleSubmit c req))
      | None => None
      end
  | _ => None
  end.

Definition settled_id (w : World) (e : Event) : option jsstring :=
  match e with
  | settle k _ => option_map clarificationId (nth_error (inflight w) k)
  | _ => None
  end.

(** The awaited call failed: the [catch] block runs. *)
Definition failure (res : FetchResult) : bool :=
  match res with
  | fetch_response true _ => false
  | _ => true
  end.

(** The number an id is the decimal rendering of. *)
Definition idValue (s : jsstring) : option Z :=
  option_map Z.of_int
    (NilEmpty.int_of_string (string_of_list_ascii (map ascii_of_N s))).

(** The clock readings of the creations in a run, in order. *)
Definition creationTimes (es : list Event) : list Z :=
  flat_map (fun e => match e with clarify now _ _ => [now] | _ => [] end) es.

Definition startsWithSpace (s : jsstring) : bool :=
  match s with c :: _ => is_whitespace c | [] => false end.

Definition endsWithSpace (s : jsstring) : bool := startsWithSpace (rev s).

(** Empty, or white space only. *)
Definition blank (s : jsstring) : bool := forallb is_whitespace s.

(** What every reachable world satisfies: the active clarification
    carries the id of a stored one, and a call in flight holds a
    snapshot with the id it was submitted for. *)
Definition consistent (w : World) : Prop :=
  (forall a, activeClarification (state w) = Some a ->
             In (id a) (map id (clarifications (state w))))
  /\ (forall p, In p (inflight w) -> id (snapshot p) = clarificationId p).

(* ================================================================== *)
(** ** A running example *)
(* ================================================================== *)

(** The values of the running example. *)
Definition t0 : Z := 1700000000000.
Definition msg1 : jsstring := str "1".
Definition gradient : jsstring :=
  str "Gradient descent is an optimization algorithm.".
Definition picked : jsstring := str "optimization algorithm".
Definition question : jsstring := str "explain simply".
Definition answer : jsstring :=
  str "It's a method to find the best solution step by step.".

(** One clarification created, then submitted, then answered or not. *)
Definition created : World := run initialWorld [clarify t0 msg1 picked].
Definition submitted : World := step created (submit (toString t0) question).
Definition answered : World :=
  step submitted (settle 0 (fetch_response true answer)).
Definition rejected : World := step submitted (settle 0 fetch_rejected).

(** The call that submit leaves in flight. *)
Definition firstCall : Pending :=
  {| clarificationId := toString t0;
     snapshot := newClarification t0 msg1 picked;
     body := {| body_selectedText := picked; userQuestion := question;
                conversationContext := contextOf (messages initial) |} |}.

(** Two clarifications on message 1, the first one submitted. *)
Definition other : jsstring := str "Gradient descent".

Definition two : World :=
  run initialWorld
    [clarify t0 msg1 picked; clarify (t0 + 1) msg1 other;
     submit (toString t0) question].

(** Two clarifications created at the same clock reading. *)
Definition twins : World :=
  run initialWorld [clarify t0 msg1 picked; clarify t0 msg1 other].

(** The words [optimization algorithm] of the example message, with
    and without the space before them. *)
Definition withSpace : AIMessage.Selection :=
  {| AIMessage.startOffset := 22; AIMessage.endOffset := 45;
     AIMessage.isInMessage := true |}.

Definition withoutSpace : AIMessage.Selection :=
  {| AIMessage.startOffset := 23; AIMessage.endOffset := 45;
     AIMessage.isInMessage := true |}.

(* ================================================================== *)
(** ** ChatInterface.tsx: sending a message *)
(* ================================================================== *)

Module Conversation.

(** All the [useState] cells of [ChatInterface]: the three of [State]
    with the text of the input box and the loading flag. *)
Record Cells := mkCells {
  store : State;
  inputValue : jsstring;
  isLoading : bool
}.

Definition initialCells : Cells :=
  {| store := initial; inputValue := []; isLoading := false |}.

(** The [messages] array of the body sent to [/api/chat]. *)
Definition ChatBody := list (Role * jsstring).

(** The synchronous part of [handleSendMessage] returns at its guard
    or reaches the [await] with the body it sends. *)
Inductive Sent :=
| ignored
| waiting (body : ChatBody).

Definition chatError : jsstring :=
  str "Sorry, I encountered an error while processing your request. Please check your OpenAI API key and try again.".

(** From the call to the [await]; [render] is the render the handler
    closes over and [now] what [Date.now()] returns. *)
Definition handleSendMessage_start
    (render : Cells) (now : Z) (st : Cells) : Sent * Cells :=
  if negb (truthy (trim (inputValue render))) || isLoading render
  then (ignored, st)
  else
    let userMessage :=
      {| message_id := toString now; role := user;
         content := inputValue render |} in
    let currentMessages := messages (store render) ++ [userMessage] in
    (waiting (map (fun m => (role m, content m)) currentMessages),
     {| store := setMessages (fun _ => currentMessages) (store st);
        inputValue := [];
        isLoading := true |}).

(** From the [await] to the end of the [finally] block; [now] is what
    [Date.now()] returns then. The second component is what is given
    to [console.error]. *)
Definition handleSendMessage_resume
    (now : Z) (res : FetchResult) (st : Cells) : Cells * list jsstring :=
  let reply text :=
    {| message_id := toString (now + 1); role := assistant; content := text |} in
  match res with
  | fetch_response true r =>
      ({| store := setMessages (fun prev => prev ++ [reply r]) (store st);
          inputValue := inputValue st; isLoading := false |},
       [])
  | _ =>
      ({| store := setMessages (fun prev => prev ++ [reply chatError]) (store st);
          inputValue := inputValue st; isLoading := false |},
       [str "Failed to get AI response:"])
  end.

(** The whole application: the cells, the chat calls and the
    clarification calls suspended at their [await], and the console. *)
Record App := mkApp {
  cells : Cells;
  chatCalls : list ChatBody;
  calls : list Pending;
  log : list jsstring
}.

Definition initialApp : App :=
  {| cells := initialCells; chatCalls := []; calls := []; log := [] |}.

(** The part of the application the clarification handlers see. *)
Definition worldOf (a : App) : World :=
  {| state := store (cells a); inflight := calls a; console := log a |}.

Definition withWorld (a : App) (w : World) : App :=
  {| cells := {| store := state w; inputValue := inputValue (cells a);
                 isLoading := isLoading (cells a) |};
     chatCalls := chatCalls a;
     calls := inflight w;
     log := console w |}.

Inductive AppEvent :=
| typed (v : jsstring)                          (* [onChange] of the input *)
| send (now : Z)                                (* [handleSendMessage] *)
| chatSettled (k : nat) (now : Z) (res : FetchResult)
                                                (* the awaited chat fetch ends *)
| onStore (e : Event).                          (* a clarification handler *)

Definition appStep (a : App) (e : AppEvent) : App :=
  match e with
  | typed v =>
      {| cells := {| store := store (cells a); inputValue := v;
                     isLoading := isLoading (cells a) |};
         chatCalls := chatCalls a; calls := calls a; log := log a |}
  | send now =>
      let '(r, st') := handleSendMessage_start (cells a) now (cells a) in
      {| cells := st';
         chatCalls := chatCalls a ++
                      match r with waiting b => [b] | ignored => [] end;
         calls := calls a; log := log a |}
  | chatSettled k now res =>
      match nth_error (chatCalls a) k with
      | None => a
      | Some _ =>
          let '(st', l) := handleSendMessage_resume now res (cells a) in
          {| cells := st';
             chatCalls := remove_nth k (chatCalls a);
             calls := calls a; log := log a ++ l |}
      end
  | onStore e => withWorld a (step (worldOf a) e)
  end.

Definition appRun (a : App) (es : list AppEvent) : App := fold_left appStep es a.

Definition appReachable (a : App) : Prop := exists es, a = appRun initialApp es.

(** An event of the application proper: [message], which stands for
    the messages the chat appends, is not one. *)
Definition genuine (e : AppEvent) : bool :=
  match e with
  | onStore (message _) => false
  | _ => true
  end.

(** The roles of a list take turns, starting with [first]. *)
Definition role_eqb (a b : Role) : bool :=
  match a, b with
  | user, user | assistant, assistant => true
  | _, _ => false
  end.

Definition otherRole (r : Role) : Role :=
  match r with user => assistant | assistant => user end.

Fixpoint takeTurns (first : Role) (l : list Role) : bool :=
  match l with
  | [] => true
  | r :: l' => role_eqb r first && takeTurns (otherRole first) l'
  end.

(** While a chat call is awaited the loading flag is up, and there is
    never a second call. *)
Definition oneCall (a : App) : Prop :=
  List.length (chatCalls a) = if isLoading (cells a) then 1 else 0.

(** An event of the chat: typing, sending, a reply. *)
Definition ofChat (e : AppEvent) : bool :=
  match e with onStore _ => false | _ => true end.

(** The turns of the conversation and the loading flag. *)
Definition inTurn (a : App) : Prop :=
  oneCall a
  /\ takeTurns assistant (map role (messages (store (cells a)))) = true
  /\ isLoading (cells a) = Nat.even (List.length (messages (store (cells a)))).

End Conversation.

(* ================================================================== *)
(** ** ClarificationPanel.tsx: what the panel shows *)
(* ================================================================== *)

Module PanelView.

(** [disabled={!request.trim() || clarification.status === 'pending'}] *)
Definition submitDisabled (c : Clarification) (req : jsstring) : bool :=
  negb (truthy (trim req))
  || match status c with pending => true | completed => false end.

Definition buttonLabel (c : Clarification) : jsstring :=
  match status c with
  | pending => str "Getting clarification..."
  | completed => str "Get Clarification"
  end.


(** [handleKeyPress] with the key and the shift flag of the event. *)
Definition handleKeyPress (key : jsstring) (shiftKey : bool)
    (c : Clarification) (req : jsstring) : option (jsstring * jsstring) * jsstring :=
  if eqb key (str "Enter") && negb shiftKey
  then ClarificationPanel.handleSubmit c req
  else (None, req).

End PanelView.

(* ================================================================== *)
(** ** MessageBubble.tsx: the context menu *)
(* ================================================================== *)

Module MessageBubble.

(** The component's state (the menu's coordinates are left out). *)
Record Ui := mkUi {
  selectedText : jsstring;
  showContextMenu : bool
}.

Definition initialUi : Ui :=
  {| selectedText := []; showContextMenu := false |}.

(** [handleSelection], once its timeout fires. [sel] is [None] when
    there is no selection or it has no range; the flag of the
    selection is the outcome of [isSelectionInMessage]. *)
Definition handleSelection (content : jsstring)
    (sel : option AIMessage.Selection) (ui : Ui) : Ui :=
  match sel with
  | Some range =>
      let selected := trim (AIMessage.selectionText content range) in
      if truthy selected && AIMessage.isInMessage range
      then {| selectedText := selected; showContextMenu := true |}
      else ui
  | None => ui
  end.

(** [handleClick]: [onMenu] says the target is inside the context
    menu, [inMessage] that it is inside the message. *)
Definition handleClick (onMenu inMessage : bool) (ui : Ui) : Ui :=
  if onMenu then ui
  else if negb inMessage
       then {| selectedText := []; showContextMenu := false |}
       else ui.

(** [handleClarify]: the state of [ChatInterface] after
    [onTextSelection] and the component's state. *)
Definition handleClarify (now : Z) (mid : jsstring) (ui : Ui) (st : State)
    : State * Ui :=
  if truthy (selectedText ui)
  then (handleTextSelection now mid (selectedText ui) st,
        {| selectedText := []; showContextMenu := false |})
  else (st, ui).

(** The text between the quotes of the button:
    [selectedText.length > 20 ? selectedText.substring(0, 20) + '...'
     : selectedText]. *)
Definition preview (s : jsstring) : jsstring :=
  if 20 <? List.length s then firstn 20 s ++ str "..." else s.

(** What the user does to one message bubble. *)
Inductive Gesture :=
| select (sel : option AIMessage.Selection)
| click (onMenu inMessage : bool).

Definition gesture (content : jsstring) (ui : Ui) (g : Gesture) : Ui :=
  match g with
  | select sel => handleSelection content sel ui
  | click onMenu inMessage => handleClick onMenu inMessage ui
  end.

End MessageBubble.

(* ================================================================== *)
(** ** ChatInput.tsx: plain text only *)
(* ================================================================== *)

Module ChatInput.

Definition lt_sign : codeunit := 60%N.
Definition gt_sign : codeunit := 62%N.

(** [s.replace(/<[^>]*>/g, '')]. A match starts at a [<] that has a
    [>] somewhere after it and ends at the first such [>]; the scan
    goes on after the match. [inTag] says the scan is inside a
    match. *)
Fixpoint strip (inTag : bool) (s : jsstring) : jsstring :=
  match s with
  | [] => []
  | c :: s' =>
      if inTag
      then if N.eqb c gt_sign then strip false s' else strip true s'
      else if N.eqb c lt_sign && existsb (N.eqb gt_sign) s'
           then strip true s'
           else c :: strip false s'
  end.

Definition stripTags (s : jsstring) : jsstring := strip false s.

(** [/<[^>]*>/.test(s)]: some [<] has a [>] after it. *)
Fixpoint hasTag (s : jsstring) : bool :=
  match s with
  | [] => false
  | c :: s' => N.eqb c lt_sign && existsb (N.eqb gt_sign) s' || hasTag s'
  end.

(** [handleInput] on the editable element's [textContent] ([None] for
    null): the text content afterwards and the value given to
    [onChange]. *)
Definition handleInput (textContent : option jsstring)
    : option jsstring * jsstring :=
  let text := match textContent with
              | Some t => if truthy t then t else []
              | None => []
              end in
  let plainText := stripTags text in
  (if eqb plainText text then textContent else Some plainText, plainText).

End ChatInput.

(* ================================================================== *)
(** ** utils/openai.ts and the clarify route *)
(* ================================================================== *)

Module Server.

(** What the completion call of the OpenAI client is given (the
    sampling temperature, a floating-point number, is left out) and
    how it ends: it throws, or returns a first choice whose content
    may be null. *)
Record CompletionRequest := mkCompletionRequest {
  model : jsstring;
  chat : list (jsstring * jsstring);
  max_tokens : option N
}.

Inductive Completion :=
| threw
| choice (content : option jsstring).

(** [a || b] on a string that may be null. *)
Definition orElse (a : option jsstring) (b : jsstring) : jsstring :=
  match a with
  | Some s => if truthy s then s else b
  | None => b
  end.

(** [l.join(sep)] *)
Definition join (sep : jsstring) (l : list jsstring) : jsstring :=
  match l with
  | [] => []
  | x :: l' => x ++ flat_map (fun y => sep ++ y) l'
  end.

Definition quote : jsstring := [34%N].
Definition newline : jsstring := [10%N].

Definition systemPrompt : jsstring :=
  str "You are an AI assistant providing clarifications on specific parts of previous responses. Be concise but thorough, and maintain the context of the conversation.".

(** The template literal [userPrompt]; an array, even an empty one,
    is truthy, so only a missing context leaves the section out. *)
Definition userPrompt (selectedText userQuestion : jsstring)
    (conversationContext : option (list jsstring)) : jsstring :=
  let context :=
    match conversationContext with
    | Some l => newline ++ newline ++ str "Conversation context:" ++ newline
                ++ join newline l
    | None => []
    end in
  str "The user has selected this text from a previous AI response: "
  ++ quote ++ selectedText ++ quote ++ newline ++ newline
  ++ str "Their clarification question: " ++ quote ++ userQuestion ++ quote
  ++ context ++ newline ++ newline
  ++ str "Please provide a clear, helpful clarification that addresses their specific question while considering the context.".

Definition clarificationFallback : jsstring :=
  str "I apologize, but I couldn't generate a clarification.".

Definition chatFallback : jsstring :=
  str "I apologize, but I couldn't generate a response.".

Section WithOpenAI.

(** The completion service. *)
Variable openai : CompletionRequest -> Completion.

(** A returned string, or the message of the error thrown; with what
    is given to [console.error]. *)
Definition generateChatResponse (msgs : list (jsstring * jsstring))
    : (jsstring + jsstring) * list jsstring :=
  match openai {| model := str "gpt-5-nano"; chat := msgs; max_tokens := None |} with
  | choice c => (inl (orElse c chatFallback), [])
  | threw => (inr (str "Failed to generate AI response"),
              [str "Error generating chat response:"])
  end.

Definition generateClarificationResponse (selectedText userQuestion : jsstring)
    (conversationContext : option (list jsstring))
    : (jsstring + jsstring) * list jsstring :=
  match openai
          {| model := str "gpt-4";
             chat := [(str "system", systemPrompt);
                      (str "user",
                       userPrompt selectedText userQuestion conversationContext)];
             max_tokens := Some 500%N |} with
  | choice c => (inl (orElse c clarificationFallback), [])
  | threw => (inr (str "Failed to generate clarification"),
              [str "Error generating clarification:"])
  end.

(** A JSON value, as [request.json()] gives it. Of a number the
    route can see whether it is zero and, in the prompt, its text
    [String(n)]; a number is kept as these two. The members of an
    object are in the order of the text. *)
#[warnings="-register-all"] Inductive Json :=
| jnull
| jbool (b : bool)
| jnumber (zero : bool) (shown : jsstring)
| jstring (s : jsstring)
| jarray (items : list Json)
| jobject (members : list (jsstring * Json)).

(** [o[name]] on a parsed object: of the members of the text with
    this name the last one is the property. *)
Fixpoint member (name : jsstring) (members : list (jsstring * Json)) : option Json :=
  match members with
  | [] => None
  | (k, v) :: rest =>
      match member name rest with
      | Some later => Some later
      | None => if eqb k name then Some v else None
      end
  end.

(** [v[name]] for the names the route reads, which no prototype
    defines: [undefined], here [None], on a boolean, a number, a
    string, an array, and on an object without the member. On [null]
    the access throws; the route's [POST] below sees to that. *)
Definition property (name : jsstring) (v : Json) : option Json :=
  match v with
  | jobject members => member name members
  | _ => None
  end.

(** Whether a value counts as true. *)
Definition truthyJson (v : Json) : bool :=
  match v with
  | jnull => false
  | jbool b => b
  | jnumber zero _ => negb zero
  | jstring s => truthy s
  | jarray _ => true
  | jobject _ => true
  end.

(** [!v] on a value that may be [undefined]. *)
Definition falsy (v : option Json) : bool :=
  match v with Some t => negb (truthyJson t) | None => true end.

Definition comma : jsstring := [44%N].

(** The text of a value in a template literal, [None] when the
    conversion throws a [TypeError]. An array is its elements joined
    by commas, where [null] counts as the empty text. A parsed object
    is [[object Object]], unless it has a member [toString]: that
    is no function, and the conversion throws. *)
Fixpoint stringOf (v : Json) : option jsstring :=
  match v with
  | jnull => Some (str "null")
  | jbool true => Some (str "true")
  | jbool false => Some (str "false")
  | jnumber _ shown => Some shown
  | jstring s => Some s
  | jarray items =>
      option_map (join comma)
        ((fix texts (l : list Json) : option (list jsstring) :=
            match l with
            | [] => Some []
            | x :: l' =>
                match match x with jnull => Some [] | _ => stringOf x end,
                      texts l' with
                | Some a, Some b => Some (a :: b)
                | _, _ => None
                end
            end) items)
  | jobject members =>
      match member (str "toString") members with
      | Some _ => None
      | None => Some (str "[object Object]")
      end
  end.

(** The texts that [items.join(sep)] joins. *)
Fixpoint texts (items : list Json) : option (list jsstring) :=
  match items with
  | [] => Some []
  | x :: l' =>
      match match x with jnull => Some [] | _ => stringOf x end, texts l' with
      | Some a, Some b => Some (a :: b)
      | _, _ => None
      end
  end.

(** The text of a value that may be [undefined]. *)
Definition textOf (v : option Json) : option jsstring :=
  match v with
  | Some t => stringOf t
  | None => Some (str "undefined")
  end.

(** What [conversationContext ? ...join(...) : ...] makes of the
    context: nothing of a value that counts as false, the texts of
    the elements of an array, and a [TypeError], here the outer
    [None], of any other value, which has no function [join]. *)
Definition contextTexts (v : option Json) : option (option (list jsstring)) :=
  match v with
  | None => Some None
  | Some t =>
      if truthyJson t
      then match t with
           | jarray items => option_map Some (texts items)
           | _ => None
           end
      else Some None
  end.

Inductive Payload :=
| response_json (response : jsstring)
| error_json (error : jsstring).

Record HttpResponse := mkHttpResponse {
  http_status : nat;
  payload : Payload
}.

(** [generateClarificationResponse] as the route calls it, on values
    that no type checks at run time. A [TypeError] in the conversions
    is thrown in the [try] block of the function, whose [catch] logs
    it and throws the fixed error. *)
Definition generateFromJson (selectedText userQuestion conversationContext : option Json)
    : (jsstring + jsstring) * list jsstring :=
  match contextTexts conversationContext,
        textOf selectedText, textOf userQuestion with
  | Some context, Some text, Some question =>
      generateClarificationResponse text question context
  | _, _, _ =>
      (inr (str "Failed to generate clarification"),
       [str "Error generating clarification:"])
  end.

(** The route's [POST]; [req] is [None] when the body is no JSON
    text, and [request.json()] throws. Taking the three properties
    of [null] throws as well; of any other value it does not. The
    second component is the server's console. *)
Definition POST (req : option Json) : HttpResponse * list jsstring :=
  match req with
  | None | Some jnull =>
      ({| http_status := 500;
          payload := error_json (str "Failed to generate clarification") |},
       [str "Clarification API error:"])
  | Some v =>
      let selectedText := property (str "selectedText") v in
      let userQuestion := property (str "userQuestion") v in
      let conversationContext := property (str "conversationContext") v in
      if falsy selectedText || falsy userQuestion
      then ({| http_status := 400;
               payload := error_json
                            (str "Selected text and user question are required") |},
            [])
      else
        match generateFromJson selectedText userQuestion conversationContext with
        | (inl r, l) => ({| http_status := 200; payload := response_json r |}, l)
        | (inr _, l) =>
            ({| http_status := 500;
                payload := error_json (str "Failed to generate clarification") |},
             l ++ [str "Clarification API error:"])
        end
  end.




End WithOpenAI.

End Server.

(* ================================================================== *)
(** ** The page: the theme *)
(* ================================================================== *)

Module Home.

(** The [theme] cell, the [theme] item of the local storage and
    whether the document element has the class [dark]. *)
Record Page := mkPage {
  theme : jsstring;
  savedTheme : option jsstring;
  darkClass : bool
}.

(** The effect run on mount; [systemPrefersDark] is the outcome of the
    media query. *)
Definition onMount (systemPrefersDark : bool) (p : Page) : Page :=
  let initialTheme :=
    Server.orElse (savedTheme p)
      (if systemPrefersDark then str "dark" else str "light") in
  {| theme := initialTheme;
     savedTheme := savedTheme p;
     darkClass := eqb initialTheme (str "dark") |}.

Definition toggleTheme (p : Page) : Page :=
  let newTheme := if eqb (theme p) (str "light") then str "dark" else str "light" in
  {| theme := newTheme;
     savedTheme := Some newTheme;
     darkClass := eqb newTheme (str "dark") |}.

(** Loading the page again: the cell starts at [light], the storage
    is kept, the effect runs. *)
Definition reload (systemPrefersDark : bool) (p : Page) : Page :=
  onMount systemPrefersDark
    {| theme := str "light"; savedTheme := savedTheme p; darkClass := false |}.

End Home.

(* ================================================================== *)
(** ** More observations *)
(* ================================================================== *)

(** Same id, same message, same selected text. *)
Definition sameAnchor (c d : Clarification) : Prop :=
  id c = id d /\ messageId c = messageId d /\ selectedText c = selectedText d.

(** How an event changes a stored clarification: not at all, or to
    [pending] with its response kept, or to [completed] with a
    response. *)
Definition touched (c' c : Clarification) : Prop :=
  sameAnchor c' c
  /\ (c' = c
      \/ (status c' = pending /\ response c' = response c)
      \/ (status c' = completed /\ exists r, response c' = Some r)).

(** What holds of every reachable world: the active clarification and
    the snapshot of every call in flight have the anchor of a stored
    clarification, and a snapshot has the id its call was submitted
    for. *)
Definition anchored (w : World) : Prop :=
  (forall a, activeClarification (state w) = Some a ->
             exists c, In c (clarifications (state w)) /\ sameAnchor c a)
  /\ (forall p, In p (inflight w) ->
                id (snapshot p) = clarificationId p
                /\ exists c, In c (clarifications (state w))
                             /\ sameAnchor c (snapshot p)).

(* ================================================================== *)
(** ** More of the running example *)
(* ================================================================== *)

(** A question typed and sent, then answered. *)
Definition hello : jsstring := str "What is gradient descent?".

Definition asking : Conversation.App :=
  Conversation.appRun Conversation.initialApp
    [Conversation.typed hello; Conversation.send t0].

Definition told : Conversation.App :=
  Conversation.appStep asking
    (Conversation.chatSettled 0 (t0 + 900) (fetch_response true gradient)).

(** The state of an [AIMessage] after a series of mouse-ups, each
    with its [onButton] flag and its selection. *)
Definition afterMouseUps (content : jsstring)
    (ups : list (bool * option AIMessage.Selection)) : AIMessage.Ui :=
  fold_left (fun ui up => AIMessage.handleMouseUp content (fst up) (snd up) ui)
            ups AIMessage.initialUi.

(** The state of a [MessageBubble] after a series of gestures. *)
Definition afterGestures (content : jsstring)
    (gs : list MessageBubble.Gesture) : MessageBubble.Ui :=
  fold_left (MessageBubble.gesture content) gs MessageBubble.initialUi.

(** A text a component may hand to [onTextSelection]: not empty, and
    with no white space at either end. *)
Definition clean (t : jsstring) : Prop := t <> [] /\ trim t = t.

(** The candidate of an [AIMessage]: empty with the button hidden, or
    clean with the button shown. *)
Definition candidateOk (text : jsstring) (shown : bool) : Prop :=
  (text = [] /\ shown = false) \/ (clean text /\ shown = true).

(** Three completion services: one that answers, one that returns a
    null content, one that throws. *)
Definition helpfulService : Server.CompletionRequest -> Server.Completion :=
  fun _ => Server.choice (Some answer).

Definition silentService : Server.CompletionRequest -> Server.Completion :=
  fun _ => Server.choice None.

Definition brokenService : Server.CompletionRequest -> Server.Completion :=
  fun _ => Server.threw.

(** A page that was loaded with nothing saved, on a system that
    prefers the dark scheme. *)
Definition firstVisit : Home.Page :=
  Home.reload true
    {| Home.theme := str "light"; Home.savedTheme := None; Home.darkClass := false |}.

(* ================================================================== *)
(** ** Markdown.tsx: numbered items *)
(* ================================================================== *)

Module Markdown.

(** [\d] and the line terminators after which [^] matches with the
    [m] flag. *)
Definition isDigit (c : codeunit) : bool := ((48 <=? c) && (c <=? 57))%N.

Definition isLineTerminator (c : codeunit) : bool :=
  ((c =? 10) || (c =? 13) || (c =? 8232) || (c =? 8233))%N.

(** Where the scan of [content.replace(/^(\d+)\)/gm, '**$1)**')] is:
    at the start of a line, inside the digits that start a line (read
    but not yet written), or further inside a line. *)
Inductive Scan :=
| lineStart
| inDigits (digits : jsstring)
| inLine.

Definition star : codeunit := 42%N.
Definition closing : codeunit := 41%N.

Definition afterUnit (c : codeunit) : Scan :=
  if isLineTerminator c then lineStart else inLine.

Fixpoint scan (st : Scan) (s : jsstring) : jsstring :=
  match s with
  | [] => match st with inDigits digits => digits | _ => [] end
  | c :: s' =>
      match st with
      | lineStart =>
          if isDigit c then scan (inDigits [c]) s'
          else c :: scan (afterUnit c) s'
      | inDigits digits =>
          if isDigit c then scan (inDigits (digits ++ [c])) s'
          else if N.eqb c closing
               then [star; star] ++ digits ++ [closing; star; star] ++ scan inLine s'
               else digits ++ c :: scan (afterUnit c) s'
      | inLine => c :: scan (afterUnit c) s'
      end
  end.

(** [processedContent] *)
Definition processedContent (content : jsstring) : jsstring :=
  scan lineStart content.

(** The text without its asterisks. *)
Definition unstarred (s : jsstring) : jsstring :=
  filter (fun c => negb (N.eqb c star)) s.

End Markdown.

(* ================================================================== *)
(** ** Basic facts *)
(* ================================================================== *)

Lemma eqb_eq (a b : jsstring) : eqb a b = true <-> a = b.
Proof.
  unfold eqb. destruct (list_eq_dec N.eq_dec a b); split; congruence.
Qed.

Lemma eqb_refl (a : jsstring) : eqb a a = true.
Proof. now apply eqb_eq. Qed.

Lemma eqb_neq (a b : jsstring) : a <> b -> eqb a b = false.
Proof.
  intros H. destruct (eqb a b) eqn:E; [apply eqb_eq in E; contradiction | reflexivity].
Qed.

Lemma run_snoc (w : World) (es : list Event) (e : Event) :
  run w (es ++ [e]) = step (run w es) e.
Proof. unfold run. now rewrite fold_left_app. Qed.

Lemma nth_error_snoc {A} (l : list A) (x y : A) (i : nat) :
  nth_error (l ++ [x]) i = Some y ->
  nth_error l i = Some y \/ (nth_error l i = None /\ i = List.length l /\ y = x).
Proof.
  intros H. destruct (Nat.lt_ge_cases i (List.length l)) as [Hlt | Hge].
  - left. now rewrite nth_error_app1 in H.
  - right. rewrite nth_error_app2 in H by assumption.
    split; [now apply nth_error_None |].
    destruct (i - List.length l) as [| n] eqn:E; simpl in H.
    + split; [lia | congruence].
    + now destruct n.
Qed.

Lemma markPending_id cid req c : id (markPending cid req c) = id c.
Proof. unfold markPending. now destruct (eqb (id c) cid). Qed.

Lemma markCompleted_id cid r c : id (markCompleted cid r c) = id c.
Proof. unfold markCompleted. now destruct (eqb (id c) cid). Qed.

Lemma markPending_other cid req c : id c <> cid -> markPending cid req c = c.
Proof. intros H. unfold markPending. now rewrite (eqb_neq _ _ H). Qed.

Lemma markCompleted_other cid r c : id c <> cid -> markCompleted cid r c = c.
Proof. intros H. unfold markCompleted. now rewrite (eqb_neq _ _ H). Qed.

Lemma markCompleted_same cid r c :
  id c = cid -> markCompleted cid r c = withResponse r c.
Proof. intros H. unfold markCompleted. now rewrite H, eqb_refl. Qed.

(** The clarification list after the synchronous part of a submit. *)
Lemma doSubmit_clarifications cid req w :
  clarifications (state (doSubmit cid req w)) =
  match find (fun c => eqb (id c) cid) (clarifications (state w)) with
  | Some _ => map (markPending cid req) (clarifications (state w))
  | None => clarifications (state w)
  end.
Proof.
  unfold doSubmit, handleClarificationSubmit_start.
  now destruct (find _ (clarifications (state w))).
Qed.

(** The clarification list after an awaited call ends. *)
Lemma resume_clarifications p res st :
  clarifications (fst (handleClarificationSubmit_resume p res st)) =
  map (markCompleted (clarificationId p)
         (match res with
          | fetch_response true r => r
          | _ => errorResponse
          end))
      (clarifications st).
Proof. destruct res as [| [|] r]; reflexivity. Qed.

Lemma settle_state w k res p :
  nth_error (inflight w) k = Some p ->
  step w (settle k res) =
  {| state := fst (handleClarificationSubmit_resume p res (state w));
     inflight := remove_nth k (inflight w);
     console := console w ++ snd (handleClarificationSubmit_resume p res (state w)) |}.
Proof.
  intros H. simpl. rewrite H.
  now destruct (handleClarificationSubmit_resume p res (state w)).
Qed.

Lemma settle_none w k res :
  nth_error (inflight w) k = None -> step w (settle k res) = w.
Proof. intros H. simpl. now rewrite H. Qed.

(* ================================================================== *)
(** ** Facts about [trim] and [slice] *)
(* ================================================================== *)

Lemma trimStart_skipn (s : jsstring) :
  exists k, k <= List.length s /\ trimStart s = skipn k s.
Proof.
  induction s as [| c s IH]; simpl.
  - exists 0. auto.
  - destruct (is_whitespace c).
    + destruct IH as (k & Hk & E). exists (S k). split; [lia | exact E].
    + exists 0. split; [lia | reflexivity].
Qed.

Lemma trimStart_length (s : jsstring) :
  List.length (trimStart s) <= List.length s.
Proof.
  destruct (trimStart_skipn s) as (k & _ & ->). rewrite length_skipn. lia.
Qed.

Lemma trimStart_blank (s : jsstring) : trimStart s = [] <-> blank s = true.
Proof.
  induction s as [| c s IH]; simpl; [tauto |].
  destruct (is_whitespace c); simpl; [exact IH |]. split; discriminate.
Qed.

Lemma trimStart_head (s : jsstring) : startsWithSpace (trimStart s) = false.
Proof.
  induction s as [| c s IH]; simpl; [reflexivity |].
  destruct (is_whitespace c) eqn:E; [exact IH | simpl; exact E].
Qed.

Lemma trimStart_fixed (s : jsstring) :
  trimStart s = s <-> startsWithSpace s = false.
Proof.
  split.
  - intros <-. apply trimStart_head.
  - destruct s as [| c s]; simpl; [reflexivity |]. now intros ->.
Qed.

Lemma blank_rev (s : jsstring) : blank (rev s) = blank s.
Proof.
  unfold blank. induction s as [| c s IH]; simpl; [reflexivity |].
  rewrite forallb_app, IH. simpl. rewrite andb_true_r. apply andb_comm.
Qed.

Lemma trimEnd_firstn (s : jsstring) :
  exists m, m <= List.length s /\ trimEnd s = firstn m s.
Proof.
  unfold trimEnd. destruct (trimStart_skipn (rev s)) as (k & Hk & ->).
  rewrite skipn_rev, rev_involutive.
  exists (List.length s - k). split; [lia | reflexivity].
Qed.

Lemma trimEnd_length (s : jsstring) :
  List.length (trimEnd s) <= List.length s.
Proof.
  destruct (trimEnd_firstn s) as (m & Hm & ->). rewrite length_firstn. lia.
Qed.

Lemma trimEnd_fixed (s : jsstring) :
  trimEnd s = s <-> endsWithSpace s = false.
Proof.
  unfold trimEnd, endsWithSpace. rewrite <- trimStart_fixed. split.
  - intros H. rewrite <- H at 2. now rewrite rev_involutive.
  - intros ->. apply rev_involutive.
Qed.

(** [trim] gives the empty string exactly on blank strings. *)
Lemma trim_blank (s : jsstring) : trim s = [] <-> blank s = true.
Proof.
  unfold trim, trimEnd. split.
  - intros H. apply (f_equal (@rev codeunit)) in H.
    rewrite rev_involutive in H. simpl in H.
    apply trimStart_blank in H. rewrite blank_rev in H.
    apply trimStart_blank.
    pose proof (trimStart_head s) as Hh.
    destruct (trimStart s) as [| c t]; [reflexivity |].
    simpl in H, Hh. rewrite Hh in H. discriminate.
  - intros H. apply trimStart_blank in H. now rewrite H.
Qed.

(** [trim] leaves a string as it is exactly when the string neither
    starts nor ends with white space. *)
Lemma trim_fixed (s : jsstring) :
  trim s = s <-> startsWithSpace s = false /\ endsWithSpace s = false.
Proof.
  unfold trim. split.
  - intros H.
    assert (Hs : trimStart s = s).
    { destruct (trimStart_skipn s) as (k & Hk & E).
      pose proof (trimEnd_length (trimStart s)) as Hl.
      rewrite H, E, length_skipn in Hl.
      assert (k = 0) by lia. subst k. exact E. }
    rewrite Hs in H. split; [now apply trimStart_fixed | now apply trimEnd_fixed].
  - intros [Hs He]. apply trimStart_fixed in Hs. apply trimEnd_fixed in He.
    now rewrite Hs, He.
Qed.

(** [trim s] is a run of [s]. *)
Lemma trim_slice (s : jsstring) :
  exists a b, a <= b /\ b <= List.length s /\ trim s = slice a b s.
Proof.
  unfold trim, slice.
  destruct (trimStart_skipn s) as (a & Ha & ->).
  destruct (trimEnd_firstn (skipn a s)) as (m & Hm & ->).
  rewrite length_skipn in Hm.
  exists a, (a + m). repeat split; [lia | lia |].
  now replace (a + m - a) with m by lia.
Qed.

Lemma slice_length (a b : nat) (s : jsstring) :
  a <= b -> b <= List.length s -> List.length (slice a b s) = b - a.
Proof.
  intros Hab Hb. unfold slice. rewrite length_firstn, length_skipn. lia.
Qed.

(** A run of a run is a run. *)
Lemma slice_slice (x y a b : nat) (s : jsstring) :
  a <= b -> b <= y - x ->
  slice a b (slice x y s) = slice (x + a) (x + b) s.
Proof.
  intros Hab Hb. unfold slice.
  rewrite skipn_firstn_comm, firstn_firstn, skipn_skipn.
  replace (Nat.min (b - a) (y - x - a)) with (b - a) by lia.
  replace (x + b - (x + a)) with (b - a) by lia.
  now rewrite (Nat.add_comm a x).
Qed.

(* ================================================================== *)
(** ** The lifecycle of a clarification *)
(* ================================================================== *)

Lemma status_two_valued (s : Status) :
  In (status_literal s) ["pending"; "completed"]%string.
Proof. destruct s; simpl; auto. Qed.

Lemma submit_transition cid req (w : World) i c' :
  stored (doSubmit cid req w) i = Some c' ->
  exists c, stored w i = Some c /\ id c' = id c /\
    (status c' = status c \/ (status c' = pending /\ cid = id c)).
Proof.
  unfold stored. rewrite doSubmit_clarifications.
  destruct (find _ (clarifications (state w))) as [found |].
  - rewrite nth_error_map.
    destruct (nth_error (clarifications (state w)) i) as [c |]; [| discriminate].
    simpl. intros [= <-]. exists c. split; [reflexivity |].
    split; [apply markPending_id |].
    unfold markPending. destruct (eqb (id c) cid) eqn:E.
    + right. apply eqb_eq in E. now split.
    + now left.
  - intros H. exists c'. auto.
Qed.

(** C1, as the code has it: a clarification is created with status
    [pending], request empty and no response; its status is always one
    of the two literals [pending] and [completed]; and from one event
    to the next the status of a stored clarification either stays, or
    becomes [pending] because the event submits its id, or becomes
    [completed] because the event ends an awaited call for its id. *)
Theorem lifecycle_transitions (w : World) (e : Event) (i : nat) (c' : Clarification) :
  stored (step w e) i = Some c' ->
  In (status_literal (status c')) ["pending"; "completed"]%string /\
  ((stored w i = None /\
    (exists now mid text, e = clarify now mid text) /\
    status c' = pending /\ request c' = [] /\ response c' = None)
   \/
   (exists c, stored w i = Some c /\ id c' = id c /\
      (status c' = status c
       \/ (status c' = pending /\ submitted_id w e = Some (id c))
       \/ (status c' = completed /\ settled_id w e = Some (id c))))).
Proof.
  intros H. split; [apply status_two_valued |].
  destruct e as [now mid text | cid req | req | k res | | m].
  - (* clarify *)
    unfold stored in *. simpl in H.
    apply nth_error_snoc in H. destruct H as [H | (Hn & _ & ->)].
    + right. exists c'. auto.
    + left. split; [assumption |]. split; [now exists now, mid, text |].
      repeat split.
  - (* submit *)
    right. simpl in H. apply submit_transition in H.
    destruct H as (c & Hc & Hid & [Hs | [Hs ->]]); exists c; simpl; auto 10.
  - (* panelSubmit *)
    right. simpl in H. simpl submitted_id.
    destruct (activeClarification (state w)) as [a |]; [| exists c'; auto].
    destruct (ClarificationPanel.handleSubmit a req) as [[[cid r] |] box];
      simpl in *; [| exists c'; auto].
    apply submit_transition in H.
    destruct H as (c & Hc & Hid & [Hs | [Hs ->]]); exists c; auto 10.
  - (* settle *)
    right. simpl settled_id.
    destruct (nth_error (inflight w) k) as [p |] eqn:Hp.
    + rewrite (settle_state w k res p Hp) in H. unfold stored in *. simpl in H.
      rewrite resume_clarifications, nth_error_map in H.
      destruct (nth_error (clarifications (state w)) i) as [c |]; [| discriminate].
      simpl in H. injection H as <-. exists c. split; [reflexivity |].
      split; [apply markCompleted_id |].
      unfold markCompleted. destruct (eqb (id c) (clarificationId p)) eqn:E.
      * right; right. apply eqb_eq in E. simpl. now rewrite E.
      * now left.
    + rewrite (settle_none w k res Hp) in H. exists c'. auto.
  - right. exists c'. auto.
  - right. exists c'. auto.
Qed.

Lemma lifecycle_transitions_witness :
  stored (step submitted (settle 0 fetch_rejected)) 0
    = Some (withResponse errorResponse
              (markPending (toString t0) question (newClarification t0 msg1 picked)))
  /\ settled_id submitted (settle 0 fetch_rejected) = Some (toString t0).
Proof.
  split; [reflexivity |].
  destruct (lifecycle_transitions submitted (settle 0 fetch_rejected) 0
              (withResponse errorResponse
                 (markPending (toString t0) question (newClarification t0 msg1 picked)))
              eq_refl) as [_ [(H & _) | (c & Hc & _ & [H | [(H & _) | (_ & H)]])]].
  - discriminate H.
  - injection Hc as <-. discriminate H.
  - discriminate H.
  - reflexivity.
Defined.

(** C1 fails as the specification words it. A clarification is created
    with status [pending], there being no [created]; a failed call
    leaves it [completed], there being no [failed]; and a completed
    clarification that is submitted again goes back to [pending]. *)
Lemma lifecycle_counterexample :
  statuses created = ["pending"%string]
  /\ statuses created <> ["created"%string]
  /\ statuses submitted = ["pending"%string]
  /\ statuses rejected = ["completed"%string]
  /\ statuses rejected <> ["failed"%string]
  /\ statuses answered = ["completed"%string]
  /\ statuses (step answered (submit (toString t0) question)) = ["pending"%string].
Proof. vm_compute. repeat split; congruence. Qed.

(* ================================================================== *)
(** ** The end of an awaited call *)
(* ================================================================== *)

Lemma failure_resume (p : Pending) (res : FetchResult) (st : State) :
  failure res = true ->
  handleClarificationSubmit_resume p res st =
  (setClarifications (map (markCompleted (clarificationId p) errorResponse)) st,
   [str "Failed to get clarification:"]).
Proof.
  destruct res as [| [|] r]; simpl; intros H;
    [reflexivity | discriminate | reflexivity].
Qed.

Section AwaitedCall.

(** A world in which the call [p] is the [k]-th in flight. *)
Variables (w : World) (k : nat) (p : Pending).
Hypothesis in_flight : nth_error (inflight w) k = Some p.

(** C2, as the code has it: when the awaited call fails (the fetch
    rejects, or the response is not ok), every stored clarification
    with the submitted id gets the fixed apology as its response and
    the status [completed], and the error is written to the
    console. *)
Theorem failure_stores_apology
    (res : FetchResult) (i : nat) (c : Clarification) :
  failure res = true ->
  stored w i = Some c ->
  id c = clarificationId p ->
  let w' := step w (settle k res) in
  stored w' i =
    Some {| id := id c; messageId := messageId c; selectedText := selectedText c;
            request := request c; response := Some errorResponse;
            status := completed |}
  /\ console w' = console w ++ [str "Failed to get clarification:"].
Proof.
  intros Hf Hc Hid w'. subst w'.
  rewrite (settle_state w k res p in_flight), (failure_resume p res (state w) Hf).
  unfold stored in *. simpl. rewrite nth_error_map, Hc. simpl.
  now rewrite (markCompleted_same _ _ _ Hid).
Qed.

(** C5, as the code has it: the end of an awaited call, successful or
    not, leaves every stored clarification whose id is not the
    submitted one exactly as it was, all fields included. *)
Theorem settle_frame (res : FetchResult) (i : nat) (c : Clarification) :
  stored w i = Some c ->
  id c <> clarificationId p ->
  stored (step w (settle k res)) i = Some c.
Proof.
  intros Hc Hid. rewrite (settle_state w k res p in_flight).
  unfold stored in *. simpl.
  rewrite resume_clarifications, nth_error_map, Hc. simpl.
  now rewrite (markCompleted_other _ _ _ Hid).
Qed.

(** A successful call that ends while the clarification it was
    submitted for is active replaces the active clarification by the
    call's snapshot with the response and [completed]. *)
Lemma success_rebuilds_active (r : jsstring) (a : Clarification) :
  activeClarification (state w) = Some a ->
  id a = clarificationId p ->
  activeClarification (state (step w (settle k (fetch_response true r))))
    = Some (withResponse r (snapshot p)).
Proof.
  intros Ha Hid. rewrite (settle_state w k _ p in_flight). simpl.
  now rewrite Ha, Hid, eqb_refl.
Qed.

End AwaitedCall.

Lemma failure_stores_apology_witness :
  stored rejected 0 =
    Some {| id := toString t0; messageId := msg1; selectedText := picked;
            request := question; response := Some errorResponse;
            status := completed |}
  /\ console rejected = [str "Failed to get clarification:"].
Proof.
  exact (failure_stores_apology submitted 0 firstCall eq_refl fetch_rejected
           0 (markPending (toString t0) question (newClarification t0 msg1 picked))
           eq_refl eq_refl eq_refl).
Defined.

(** C2 fails as the specification words it: the clarification that was
    being submitted ends with the status [completed], not [failed]. *)
Lemma failure_counterexample :
  option_map status (stored submitted 0) = Some pending
  /\ option_map (fun c => status_literal (status c)) (stored rejected 0)
       = Some "completed"%string
  /\ option_map (fun c => status_literal (status c)) (stored rejected 0)
       <> Some "failed"%string
  /\ option_map response (stored rejected 0) = Some (Some errorResponse).
Proof. vm_compute. repeat split; congruence. Qed.

Lemma settle_frame_witness :
  stored (step two (settle 0 fetch_rejected)) 1
    = Some (newClarification (t0 + 1) msg1 other)
  /\ stored (step two (settle 0 (fetch_response true answer))) 1
    = Some (newClarification (t0 + 1) msg1 other).
Proof.
  assert (Hid : id (newClarification (t0 + 1) msg1 other) <> clarificationId firstCall)
    by (vm_compute; congruence).
  split.
  - exact (settle_frame two 0 firstCall eq_refl fetch_rejected 1 _ eq_refl Hid).
  - exact (settle_frame two 0 firstCall eq_refl (fetch_response true answer) 1 _
             eq_refl Hid).
Defined.

(** C5 fails as the specification words it, for any two
    clarifications on one message: of two created on message 1 at one
    clock reading, a submit is under way; its failure, and its
    success as well, change the status and the response of both, the
    second being the other one. *)
Lemma settle_frame_counterexample :
  map messageId (clarifications (state twins)) = [msg1; msg1]
  /\ map selectedText (clarifications (state twins)) = [picked; other]
  /\ stored (step twins (submit (toString t0) question)) 1 =
       Some {| id := toString t0; messageId := msg1; selectedText := other;
               request := question; response := None; status := pending |}
  /\ stored (run twins [submit (toString t0) question; settle 0 fetch_rejected]) 1 =
       Some {| id := toString t0; messageId := msg1; selectedText := other;
               request := question; response := Some errorResponse;
               status := completed |}
  /\ stored (run twins [submit (toString t0) question;
                        settle 0 (fetch_response true answer)]) 1 =
       Some {| id := toString t0; messageId := msg1; selectedText := other;
               request := question; response := Some answer;
               status := completed |}.
Proof. vm_compute. repeat split. Qed.

(** Clarifications that share the submitted id are all updated: two
    created at one clock reading go through a submit and its end
    together. *)
Lemma shared_id_settles_together :
  statuses twins = ["pending"; "pending"]%string
  /\ map request (clarifications (state (step twins (submit (toString t0) question))))
     = [question; question]
  /\ statuses (run twins [submit (toString t0) question; settle 0 fetch_rejected])
     = ["completed"; "completed"]%string.
Proof. vm_compute. repeat split. Qed.

(* ================================================================== *)
(** ** Submitting *)
(* ================================================================== *)

Lemma find_id_none (cid : jsstring) (l : list Clarification) :
  ~ In cid (map id l) -> find (fun c => eqb (id c) cid) l = None.
Proof.
  induction l as [| c l IH]; simpl; intros H; [reflexivity |].
  rewrite eqb_neq by (intros E; apply H; now left).
  apply IH. intros E; apply H; now right.
Qed.

Lemma find_id_some (cid : jsstring) (l : list Clarification) (c : Clarification) :
  find (fun c => eqb (id c) cid) l = Some c -> In c l /\ id c = cid.
Proof.
  intros H. apply find_some in H. destruct H as [Hin E].
  apply eqb_eq in E. now split.
Qed.

Lemma world_eta (w : World) :
  {| state := state w; inflight := inflight w; console := console w |} = w.
Proof. now destruct w. Qed.

(** C6, as the code has it: a submit for an id no stored clarification
    has returns at the guard. Nothing is raised and nothing is logged:
    the state, the calls in flight and the console are what they
    were. *)
Theorem submit_unknown_id_returns (w : World) (cid req : jsstring) :
  ~ In cid (map id (clarifications (state w))) ->
  handleClarificationSubmit_start (state w) cid req (state w) = (returned, state w)
  /\ step w (submit cid req) = w.
Proof.
  intros H. apply find_id_none in H.
  unfold step, doSubmit, handleClarificationSubmit_start. rewrite H.
  split; [reflexivity |]. rewrite app_nil_r. apply world_eta.
Qed.

Lemma submit_unknown_id_returns_witness :
  handleClarificationSubmit_start (state created) (str "42") question (state created)
    = (returned, state created)
  /\ step created (submit (str "42") question) = created.
Proof.
  apply (submit_unknown_id_returns created (str "42") question).
  vm_compute. intros [E | []]. discriminate E.
Defined.

(** C6 fails as the specification words it: submitting the unknown id
    42 returns normally, with the world unchanged and an empty
    console, so no error is raised and none is logged. *)
Lemma submit_unknown_id_counterexample :
  map id (clarifications (state created)) = [toString t0]
  /\ fst (handleClarificationSubmit_start
            (state created) (str "42") question (state created)) = returned
  /\ step created (submit (str "42") question) = created
  /\ console (step created (submit (str "42") question)) = []
  /\ inflight (step created (submit (str "42") question)) = [].
Proof. vm_compute. repeat split. Qed.

(** C7, as the code has it: the guard against a blank request is the
    panel's. Submitting from the panel with a blank text box (empty,
    or white space only) does nothing: the panel's [handleSubmit] does
    not call [onSubmit] and keeps its text box, so no status changes,
    no request is stored and no call is started: the world is the
    same. *)
Theorem blank_submit_is_noop (w : World) (c : Clarification) (req : jsstring) :
  blank req = true ->
  ClarificationPanel.handleSubmit c req = (None, req)
  /\ step w (panelSubmit req) = w.
Proof.
  intros H. apply trim_blank in H.
  unfold step, ClarificationPanel.handleSubmit. rewrite H. simpl.
  split; [reflexivity |].
  now destruct (activeClarification (state w)).
Qed.

Lemma blank_submit_is_noop_witness :
  ClarificationPanel.handleSubmit (newClarification t0 msg1 picked) [32; 9; 10]%N
    = (None, [32; 9; 10]%N)
  /\ step created (panelSubmit [32; 9; 10]%N) = created.
Proof.
  exact (blank_submit_is_noop created (newClarification t0 msg1 picked)
           [32; 9; 10]%N eq_refl).
Defined.

(** C7 fails as the specification words it, for the handler behind
    [onSubmit]: [handleClarificationSubmit] has no guard of its own.
    Called for the known id of a completed clarification with a
    request of two spaces, it stores that request, sets the status
    back to [pending] and starts a call. *)
Lemma blank_submit_counterexample :
  blank (str "  ") = true
  /\ map id (clarifications (state answered)) = [toString t0]
  /\ option_map (fun c => (request c, status c)) (stored answered 0)
     = Some (question, completed)
  /\ inflight answered = []
  /\ option_map (fun c => (request c, status c))
       (stored (step answered (submit (toString t0) (str "  "))) 0)
     = Some (str "  ", pending)
  /\ map (fun p => userQuestion (body p))
       (inflight (step answered (submit (toString t0) (str "  "))))
     = [str "  "].
Proof. vm_compute. repeat split. Qed.

(** The guard is the panel's. [handleClarificationSubmit] itself has
    none: called with a blank request on a completed clarification it
    stores the request, sets the status back to [pending] and starts a
    call. *)
Lemma store_submit_has_no_blank_guard :
  blank (str "  ") = true
  /\ option_map (fun c => (request c, status c))
       (stored (step answered (submit (toString t0) (str "  "))) 0)
     = Some (str "  ", pending)
  /\ List.length (inflight (step answered (submit (toString t0) (str "  ")))) = 1.
Proof. vm_compute. repeat split. Qed.

(* ================================================================== *)
(** ** Closing the panel *)
(* ================================================================== *)

(** C8, as the code has it: closing sets the active clarification to
    null and nothing else. The stored clarifications and the calls in
    flight are the same, so no call is cancelled. A call that ends
    after the close updates the stored clarifications and the console
    as it would have without it: every stored clarification with the
    submitted id becomes [completed], with the answer, or with the
    apology if the call failed. The active clarification stays null. *)
Theorem close_only_detaches (w : World) :
  step w close =
    {| state := setActiveClarification (fun _ => None) (state w);
       inflight := inflight w; console := console w |}
  /\ clarifications (state (step w close)) = clarifications (state w)
  /\ inflight (step w close) = inflight w
  /\ (forall (k : nat) (res : FetchResult),
       let opened := step w (settle k res) in
       let closed := step (step w close) (settle k res) in
       clarifications (state closed) = clarifications (state opened)
       /\ inflight closed = inflight opened
       /\ console closed = console opened
       /\ activeClarification (state closed) = None)
  /\ (forall (k : nat) (p : Pending) (res : FetchResult)
             (i : nat) (c : Clarification),
       nth_error (inflight w) k = Some p ->
       stored w i = Some c ->
       id c = clarificationId p ->
       stored (step (step w close) (settle k res)) i =
         Some {| id := id c; messageId := messageId c;
                 selectedText := selectedText c; request := request c;
                 response := Some match res with
                                  | fetch_response true r => r
                                  | _ => errorResponse
                                  end;
                 status := completed |}).
Proof.
  split; [reflexivity |]. split; [reflexivity |]. split; [reflexivity |].
  split.
  - intros k res opened closed. subst opened closed.
    destruct (nth_error (inflight w) k) as [p |] eqn:Hp.
    + rewrite (settle_state w k res p Hp).
      rewrite (settle_state (step w close) k res p Hp).
      destruct res as [| [|] r]; repeat split.
    + rewrite (settle_none (step w close) k res Hp).
      rewrite (settle_none w k res Hp). repeat split.
  - intros k p res i c Hp Hc Hid.
    rewrite (settle_state (step w close) k res p Hp).
    unfold stored in *. cbn [state].
    rewrite resume_clarifications, nth_error_map.
    change (clarifications (state (step w close))) with (clarifications (state w)).
    rewrite Hc. simpl. now rewrite (markCompleted_same _ _ _ Hid).
Qed.

Lemma close_only_detaches_witness :
  stored (run submitted [close; settle 0 (fetch_response true answer)]) 0 =
    Some {| id := toString t0; messageId := msg1; selectedText := picked;
            request := question; response := Some answer; status := completed |}
  /\ stored (run submitted [close; settle 0 fetch_rejected]) 0 =
    Some {| id := toString t0; messageId := msg1; selectedText := picked;
            request := question; response := Some errorResponse;
            status := completed |}.
Proof.
  destruct (close_only_detaches submitted) as (_ & _ & _ & _ & H).
  split.
  - exact (H 0 firstCall (fetch_response true answer) 0
             (markPending (toString t0) question (newClarification t0 msg1 picked))
             eq_refl eq_refl eq_refl).
  - exact (H 0 firstCall fetch_rejected 0
             (markPending (toString t0) question (newClarification t0 msg1 picked))
             eq_refl eq_refl eq_refl).
Defined.

(** C8 fails as the specification words it in one respect: a call
    that fails after the panel was closed leaves the stored
    clarification [completed] with the apology, there being no
    [failed]. The close itself cancels nothing. *)
Lemma close_counterexample :
  inflight (step submitted close) = inflight submitted
  /\ statuses (run submitted [close; settle 0 fetch_rejected])
     = ["completed"%string]
  /\ statuses (run submitted [close; settle 0 fetch_rejected])
     <> ["failed"%string]
  /\ option_map response (stored (run submitted [close; settle 0 fetch_rejected]) 0)
     = Some (Some errorResponse)
  /\ activeClarification (state (run submitted [close; settle 0 fetch_rejected]))
     = None.
Proof. vm_compute. repeat split; congruence. Qed.

(* ================================================================== *)
(** ** The active clarification after a successful submit *)
(* ================================================================== *)

(** What a submit for a stored id leaves behind: every stored
    clarification with that id marked, and one more call in flight,
    which holds the clarification found before the marking. *)
Lemma submit_known_id (w : World) (cid req : jsstring) (c0 : Clarification) :
  find (fun c => eqb (id c) cid) (clarifications (state w)) = Some c0 ->
  step w (submit cid req) =
  {| state := setClarifications (map (markPending cid req)) (state w);
     inflight := inflight w ++
       [ {| clarificationId := cid; snapshot := c0;
            body := {| body_selectedText := selectedText c0; userQuestion := req;
                       conversationContext := contextOf (messages (state w)) |} |} ];
     console := console w |}.
Proof.
  intros H. unfold step, doSubmit, handleClarificationSubmit_start. now rewrite H.
Qed.

(** C10: when the submit of the active clarification succeeds, the
    active clarification becomes the clarification found in the store
    before the submit, with the new response and status [completed]:
    its request is the one from before the submit. The stored
    clarifications with that id get the submitted request instead. *)
Theorem active_keeps_old_request
    (w : World) (cid req r : jsstring) (c0 a : Clarification) :
  find (fun c => eqb (id c) cid) (clarifications (state w)) = Some c0 ->
  activeClarification (state w) = Some a ->
  id a = cid ->
  let w' := step (step w (submit cid req))
                 (settle (List.length (inflight w)) (fetch_response true r)) in
  activeClarification (state w') =
    Some {| id := id c0; messageId := messageId c0; selectedText := selectedText c0;
            request := request c0; response := Some r; status := completed |}
  /\ option_map request (activeClarification (state w')) = Some (request c0)
  /\ forall i c, stored w i = Some c -> id c = cid ->
       stored w' i =
         Some {| id := id c; messageId := messageId c; selectedText := selectedText c;
                 request := req; response := Some r; status := completed |}.
Proof.
  intros Hf Ha Hid w'. subst w'. rewrite (submit_known_id w cid req c0 Hf).
  set (p := {| clarificationId := cid; snapshot := c0; body := _ |}).
  set (w1 := {| state := _; inflight := inflight w ++ [p]; console := _ |}).
  assert (Hp : nth_error (inflight w1) (List.length (inflight w)) = Some p).
  { subst w1. simpl. rewrite nth_error_app2, Nat.sub_diag by lia. reflexivity. }
  split; [| split].
  - now rewrite (success_rebuilds_active w1 _ p Hp r a Ha Hid).
  - now rewrite (success_rebuilds_active w1 _ p Hp r a Ha Hid).
  - intros i c Hc Hc_id. rewrite (settle_state w1 _ _ p Hp).
    unfold stored in *. simpl. rewrite !nth_error_map, Hc. simpl.
    rewrite markCompleted_same by (now rewrite markPending_id).
    unfold markPending. now rewrite Hc_id, eqb_refl.
Qed.

(** In the running example the active clarification ends with the
    empty request it was created with, and the stored one with the
    question that was submitted. *)
Lemma active_keeps_old_request_witness :
  activeClarification (state answered) =
    Some {| id := toString t0; messageId := msg1; selectedText := picked;
            request := []; response := Some answer; status := completed |}
  /\ option_map request (activeClarification (state answered)) = Some []
  /\ forall i c, stored created i = Some c -> id c = toString t0 ->
       stored answered i =
         Some {| id := id c; messageId := messageId c; selectedText := selectedText c;
                 request := question; response := Some answer; status := completed |}.
Proof.
  exact (active_keeps_old_request created (toString t0) question answer
           (newClarification t0 msg1 picked) (newClarification t0 msg1 picked)
           eq_refl eq_refl eq_refl).
Defined.

(** The two requests of the running example side by side. *)
Lemma active_and_stored_request_differ :
  option_map request (activeClarification (state answered)) = Some []
  /\ option_map request (stored answered 0) = Some question
  /\ option_map id (activeClarification (state answered))
     = option_map id (stored answered 0).
Proof. vm_compute. repeat split. Qed.

(* ================================================================== *)
(** ** Ids and the clock *)
(* ================================================================== *)

Lemma str_inj (s t : string) : str s = str t -> s = t.
Proof.
  unfold str. intros H.
  rewrite <- (string_of_list_ascii_of_string s), <- (string_of_list_ascii_of_string t).
  f_equal. revert H.
  generalize (list_ascii_of_string s) (list_ascii_of_string t).
  induction l as [| a l IH]; intros [| b m] H; try discriminate; [reflexivity |].
  simpl in H. injection H as Hab Hlm. f_equal; [| now apply IH].
  rewrite <- (ascii_N_embedding a), <- (ascii_N_embedding b). now f_equal.
Qed.

Lemma idValue_toString (n : Z) : idValue (toString n) = Some n.
Proof.
  unfold idValue, toString, str. rewrite map_map.
  rewrite (map_ext _ (fun a => a)) by apply ascii_N_embedding.
  rewrite map_id, string_of_list_ascii_of_string, NilEmpty.isi. simpl.
  now rewrite DecimalZ.of_to.
Qed.

Lemma toString_inj (a b : Z) : toString a = toString b -> a = b.
Proof.
  intros H. apply (f_equal idValue) in H.
  rewrite !idValue_toString in H. congruence.
Qed.

(** The ids after a step: those before, and the clock reading of the
    creation if the step is one. *)
Lemma step_ids (w : World) (e : Event) :
  map id (clarifications (state (step w e))) =
  map id (clarifications (state w)) ++
  match e with clarify now _ _ => [toString now] | _ => [] end.
Proof.
  assert (Hs : forall cid req v,
             map id (clarifications (state (doSubmit cid req v)))
             = map id (clarifications (state v))).
  { intros cid req v. rewrite doSubmit_clarifications.
    destruct (find _ (clarifications (state v))) as [found |]; [| reflexivity].
    rewrite map_map. apply map_ext. intros c. apply markPending_id. }
  destruct e as [now mid text | cid req | req | k res | | m];
    rewrite ?app_nil_r.
  - simpl. now rewrite map_app.
  - apply Hs.
  - simpl. destruct (activeClarification (state w)) as [a |]; [| reflexivity].
    destruct (fst (ClarificationPanel.handleSubmit a req)) as [[cid r] |]; [| reflexivity].
    apply Hs.
  - destruct (nth_error (inflight w) k) as [p |] eqn:Hp.
    + rewrite (settle_state w k res p Hp). simpl.
      rewrite resume_clarifications, map_map. apply map_ext. intros c.
      apply markCompleted_id.
    + now rewrite (settle_none w k res Hp).
  - reflexivity.
  - reflexivity.
Qed.

Lemma run_ids (w : World) (es : list Event) :
  map id (clarifications (state (run w es))) =
  map id (clarifications (state w)) ++ map toString (creationTimes es).
Proof.
  induction es as [| e es IH] using rev_ind.
  - simpl. now rewrite app_nil_r.
  - rewrite run_snoc, step_ids, IH. unfold creationTimes.
    rewrite flat_map_app, map_app, <- app_assoc. f_equal. f_equal.
    simpl. rewrite app_nil_r. now destruct e.
Qed.

(** C9, as the code has it: the id of a clarification is the decimal
    rendering of the clock reading at its creation, and the store
    holds the clarifications in creation order. So the ids, read as
    numbers, are the clock readings in creation order, and they are
    pairwise distinct exactly when the readings are. *)
Theorem ids_are_clock_readings (es : list Event) :
  let ids := map id (clarifications (state (run initialWorld es))) in
  ids = map toString (creationTimes es)
  /\ map idValue ids = map Some (creationTimes es)
  /\ (NoDup ids <-> NoDup (creationTimes es)).
Proof.
  intros ids. subst ids. rewrite run_ids. simpl. split; [reflexivity |].
  split.
  - rewrite map_map. apply map_ext. apply idValue_toString.
  - split.
    + apply NoDup_map_inv.
    + intros Hnd. apply NoDup_map_NoDup_ForallPairs; [| exact Hnd].
      intros a b _ _. apply toString_inj.
Qed.

(** C9 fails as the specification words it: two clarifications
    created at one clock reading have the same id, and when the clock
    steps back between two creations the later clarification has the
    smaller id. *)
Lemma ids_counterexample :
  map id (clarifications (state
     (run initialWorld [clarify t0 msg1 picked; clarify t0 msg1 other])))
    = [toString t0; toString t0]
  /\ map (fun c => idValue (id c)) (clarifications (state
       (run initialWorld [clarify (t0 + 5) msg1 picked; clarify t0 msg1 other])))
    = [Some (t0 + 5)%Z; Some t0].
Proof. vm_compute. repeat split. Qed.

(* ================================================================== *)
(** ** The one active clarification *)
(* ================================================================== *)

Lemma doSubmit_active cid req w :
  activeClarification (state (doSubmit cid req w)) = activeClarification (state w).
Proof.
  unfold doSubmit, handleClarificationSubmit_start.
  now destruct (find _ (clarifications (state w))).
Qed.

Lemma doSubmit_inflight cid req w p :
  In p (inflight (doSubmit cid req w)) ->
  In p (inflight w) \/ id (snapshot p) = clarificationId p.
Proof.
  unfold doSubmit, handleClarificationSubmit_start.
  destruct (find _ (clarifications (state w))) as [found |] eqn:Hf; simpl.
  - rewrite in_app_iff. intros [H | [<- | []]]; [now left |].
    right. simpl. now apply find_id_some in Hf.
  - rewrite app_nil_r. now left.
Qed.

Lemma doSubmit_consistent cid req w : consistent w -> consistent (doSubmit cid req w).
Proof.
  intros [Ha Hp]. split.
  - intros a. rewrite doSubmit_active. intros H.
    change (doSubmit cid req w) with (step w (submit cid req)).
    rewrite step_ids, app_nil_r. now apply Ha.
  - intros p H. apply doSubmit_inflight in H. destruct H; auto.
Qed.

Lemma In_remove_nth {A} (k : nat) (l : list A) (x : A) :
  In x (remove_nth k l) -> In x l.
Proof.
  unfold remove_nth. revert l.
  induction k as [| k IH]; intros [| y l]; simpl; auto.
  intros [H | H]; [now left | right; now apply IH].
Qed.

Lemma step_consistent (w : World) (e : Event) : consistent w -> consistent (step w e).
Proof.
  intros Hw. pose proof Hw as [Ha Hp].
  destruct e as [now mid text | cid req | req | k res | | m].
  - split; [| exact Hp]. intros a H. rewrite step_ids. simpl in H.
    injection H as <-. apply in_or_app. right. now left.
  - now apply doSubmit_consistent.
  - simpl. destruct (activeClarification (state w)) as [a |]; [| exact Hw].
    destruct (fst (ClarificationPanel.handleSubmit a req)) as [[cid r] |]; [| exact Hw].
    now apply doSubmit_consistent.
  - destruct (nth_error (inflight w) k) as [p |] eqn:Hk.
    + split.
      * intros a. rewrite step_ids, app_nil_r, (settle_state w k res p Hk).
        destruct res as [| [|] r]; simpl; try apply Ha.
        destruct (activeClarification (state w)) as [b |] eqn:Hb; [| discriminate].
        destruct (eqb (id b) (clarificationId p)) eqn:E; [| apply Ha].
        intros [= <-]. simpl. apply eqb_eq in E.
        rewrite (Hp p (nth_error_In _ _ Hk)), <- E. now apply Ha.
      * intros q. rewrite (settle_state w k res p Hk). simpl. intros H.
        apply Hp. eapply In_remove_nth, H.
    + now rewrite (settle_none w k res Hk).
  - split; [| exact Hp]. intros a H. discriminate H.
  - exact Hw.
Qed.

Lemma reachable_consistent (w : World) : reachable w -> consistent w.
Proof.
  intros [es ->]. induction es as [| e es IH] using rev_ind.
  - split; [intros a H; discriminate H | intros p []].
  - rewrite run_snoc. now apply step_consistent.
Qed.

(** C3: in a reachable world the panel is mounted for at most one
    clarification, which carries the id of a stored one. Creating a
    clarification appends it to the store, where the clarifications
    already there keep every field, and makes it the one presented; a
    second creation leaves only the second presented. *)
Theorem one_active_clarification (w : World) (now : Z) (mid text : jsstring) :
  reachable w ->
  let w1 := step w (clarify now mid text) in
  List.length (presented w) <= 1
  /\ (forall a, In a (presented w) -> In (id a) (map id (clarifications (state w))))
  /\ presented w1 = [newClarification now mid text]
  /\ clarifications (state w1) =
       clarifications (state w) ++ [newClarification now mid text]
  /\ (forall i c, stored w i = Some c -> stored w1 i = Some c)
  /\ (forall now' mid' text',
        presented (step w1 (clarify now' mid' text'))
          = [newClarification now' mid' text']).
Proof.
  intros Hr w1. apply reachable_consistent in Hr. destruct Hr as [Ha _].
  unfold presented.
  split; [destruct (activeClarification (state w)); simpl; lia |].
  split.
  { intros a. destruct (activeClarification (state w)) as [b |] eqn:Hb;
      [| intros []]. intros [<- | []]. now apply Ha. }
  split; [reflexivity |]. split; [reflexivity |].
  split; [| reflexivity].
  intros i c Hc. unfold stored in *. subst w1. simpl.
  rewrite nth_error_app1; [exact Hc |].
  apply nth_error_Some. congruence.
Qed.

Lemma one_active_clarification_witness :
  List.length (presented created) <= 1
  /\ (forall a, In a (presented created) ->
        In (id a) (map id (clarifications (state created))))
  /\ presented (step created (clarify (t0 + 1) msg1 other))
       = [newClarification (t0 + 1) msg1 other]
  /\ clarifications (state (step created (clarify (t0 + 1) msg1 other))) =
       clarifications (state created) ++ [newClarification (t0 + 1) msg1 other]
  /\ (forall i c, stored created i = Some c ->
        stored (step created (clarify (t0 + 1) msg1 other)) i = Some c)
  /\ (forall now' mid' text',
        presented (step (step created (clarify (t0 + 1) msg1 other))
                        (clarify now' mid' text'))
          = [newClarification now' mid' text']).
Proof.
  apply (one_active_clarification created (t0 + 1) msg1 other).
  exists [clarify t0 msg1 picked]. reflexivity.
Defined.

(* ================================================================== *)
(** ** From a selection to a stored clarification *)
(* ================================================================== *)

Lemma truthy_trim (s : jsstring) : truthy (trim s) = negb (blank s).
Proof.
  destruct (blank s) eqn:E.
  - apply trim_blank in E. now rewrite E.
  - destruct (trim s) eqn:T; [| reflexivity].
    apply trim_blank in T. congruence.
Qed.

(** What selecting a range and activating the button stores. *)
Lemma clarifySelection_eq now mid content range st :
  AIMessage.isInMessage range = true ->
  AIMessage.clarifySelection now mid content range st =
  if blank (AIMessage.selectionText content range) then st
  else handleTextSelection now mid (trim (AIMessage.selectionText content range)) st.
Proof.
  intros Hin.
  unfold AIMessage.clarifySelection, AIMessage.handleMouseUp, AIMessage.handleClarify.
  simpl. rewrite truthy_trim, Hin.
  destruct (blank (AIMessage.selectionText content range)) eqn:E; simpl.
  - reflexivity.
  - now rewrite truthy_trim, E.
Qed.

(** The click on the button leaves the selection on the page as it
    was: the range is cloned before the state changes and put back
    after them. *)
Lemma handleClarify_restores_selection now mid range ui st :
  truthy (AIMessage.selectedText ui) = true ->
  snd (AIMessage.handleClarify now mid (Some range) ui st) = Some range.
Proof. intros H. unfold AIMessage.handleClarify. now rewrite H. Qed.

(** What is kept of a selection is the id of
    the message and the selected text with the white space at its two
    ends trimmed off, and no offsets. A selection that is blank creates
    nothing. Otherwise the stored text is a run of the message's text
    inside the selected range, not empty, and it is the selected text
    itself exactly when that neither starts nor ends with white
    space. *)
Lemma selection_is_stored_trimmed
    (now : Z) (mid content : jsstring) (range : AIMessage.Selection) (st : State) :
  AIMessage.isInMessage range = true ->
  AIMessage.startOffset range <= AIMessage.endOffset range ->
  AIMessage.endOffset range <= List.length content ->
  let text := AIMessage.selectionText content range in
  (blank text = true ->
     AIMessage.clarifySelection now mid content range st = st)
  /\ (blank text = false ->
        AIMessage.clarifySelection now mid content range st
          = handleTextSelection now mid (trim text) st
        /\ (exists a b, AIMessage.startOffset range <= a /\ a < b
                        /\ b <= AIMessage.endOffset range
                        /\ slice a b content = trim text)
        /\ (trim text = text <->
            startsWithSpace text = false /\ endsWithSpace text = false)).
Proof.
  intros Hin Hxy Hy text. split.
  - intros Hb. rewrite clarifySelection_eq by assumption. fold text. now rewrite Hb.
  - intros Hb. split; [| split].
    + rewrite clarifySelection_eq by assumption. fold text. now rewrite Hb.
    + destruct (trim_slice text) as (a & b & Hab & Hbl & E).
      assert (Hne : a <> b).
      { intros ->. unfold slice in E. rewrite Nat.sub_diag in E. simpl in E.
        apply trim_blank in E. congruence. }
      rewrite E. unfold text, AIMessage.selectionText in *.
      rewrite slice_length in Hbl by assumption.
      rewrite slice_slice by assumption.
      exists (AIMessage.startOffset range + a), (AIMessage.startOffset range + b).
      repeat split; try lia.
    + apply trim_fixed.
Qed.

Lemma selection_is_stored_trimmed_witness :
  AIMessage.clarifySelection t0 msg1 gradient withSpace initial
    = handleTextSelection t0 msg1 picked initial
  /\ (exists a b, 22 <= a /\ a < b /\ b <= 45 /\ slice a b gradient = picked)
  /\ (picked = AIMessage.selectionText gradient withSpace <->
      startsWithSpace (AIMessage.selectionText gradient withSpace) = false
      /\ endsWithSpace (AIMessage.selectionText gradient withSpace) = false).
Proof.
  apply (selection_is_stored_trimmed t0 msg1 gradient withSpace initial
           eq_refl).
  - simpl. lia.
  - vm_compute. lia.
  - reflexivity.
Defined.

(** Two selections that differ by the space before the words leave
    the same state behind, with the same stored text. *)
Lemma padded_selection_is_trimmed :
  AIMessage.selectionText gradient withSpace = 32%N :: picked
  /\ AIMessage.selectionText gradient withoutSpace = picked
  /\ AIMessage.clarifySelection t0 msg1 gradient withSpace initial
     = AIMessage.clarifySelection t0 msg1 gradient withoutSpace initial
  /\ map selectedText
       (clarifications (AIMessage.clarifySelection t0 msg1 gradient withSpace initial))
     = [picked].
Proof. vm_compute. repeat split. Qed.

Lemma startsWith_firstn (p s : jsstring) :
  Resolver.startsWith p s = true <-> firstn (List.length p) s = p.
Proof.
  revert s. induction p as [| a p IH]; intros s; [simpl; tauto |].
  destruct s as [| b s]; simpl; [split; discriminate |].
  rewrite andb_true_iff, N.eqb_eq, IH. split.
  - intros [-> ->]. reflexivity.
  - intros [= -> H]. now rewrite H.
Qed.

(** A text that occurs in a content is found, at its first
    occurrence. *)
Lemma indexOf_finds (t before after : jsstring) (from : nat) :
  exists i,
    Resolver.indexOf t (before ++ t ++ after) from = Some (from + i)
    /\ i <= List.length before
    /\ firstn (List.length t) (skipn i (before ++ t ++ after)) = t.
Proof.
  revert from. induction before as [| c before IH]; intros from.
  - exists 0. rewrite Nat.add_0_r.
    assert (H : Resolver.startsWith t (t ++ after) = true).
    { apply startsWith_firstn. rewrite firstn_app, Nat.sub_diag, firstn_all.
      simpl. now rewrite app_nil_r. }
    split; [| split; [reflexivity | now apply startsWith_firstn]].
    simpl. destruct (t ++ after) as [| x l] eqn:E; simpl.
    + destruct t; [reflexivity | discriminate E].
    + now rewrite H.
  - cbn [app Resolver.indexOf].
    destruct (Resolver.startsWith t (c :: before ++ t ++ after)) eqn:H.
    + exists 0. rewrite Nat.add_0_r. split; [reflexivity |].
      split; [simpl; lia | now apply startsWith_firstn].
    + destruct (IH (S from)) as (i & E & Hi & Ht).
      exists (S i). rewrite E. split; [f_equal; lia |].
      split; [simpl; lia | exact Ht].
Qed.

Lemma slice_occurs (a b : nat) (s : jsstring) :
  a <= b -> b <= List.length s ->
  s = firstn a s ++ slice a b s ++ skipn b s.
Proof.
  intros Hab Hb. unfold slice.
  replace (skipn b s) with (skipn (b - a) (skipn a s))
    by (rewrite skipn_skipn; f_equal; lia).
  now rewrite firstn_skipn, firstn_skipn.
Qed.

(** C4: the anchor round trip. For a range inside the rendered text
    of a message whose text is not blank, activating Clarify stores
    an anchor for that message, and resolving this anchor against the
    same content never gives [NotFound]: it gives a range of the
    content whose text is the text of the selected range with the
    white space at its ends trimmed off, which is the text of the
    range itself when that neither starts nor ends with white
    space. *)
Theorem anchor_round_trip
    (now : Z) (mid content : jsstring) (range : AIMessage.Selection) (st : State) :
  AIMessage.isInMessage range = true ->
  AIMessage.startOffset range <= AIMessage.endOffset range ->
  AIMessage.endOffset range <= List.length content ->
  blank (AIMessage.selectionText content range) = false ->
  exists anchor a b,
    activeClarification (AIMessage.clarifySelection now mid content range st)
      = Some anchor
    /\ clarifications (AIMessage.clarifySelection now mid content range st)
       = clarifications st ++ [anchor]
    /\ messageId anchor = mid
    /\ Resolver.resolve anchor content = Resolver.Found a b
    /\ Resolver.resolve anchor content <> Resolver.NotFound
    /\ slice a b content = trim (AIMessage.selectionText content range)
    /\ (startsWithSpace (AIMessage.selectionText content range) = false ->
        endsWithSpace (AIMessage.selectionText content range) = false ->
        slice a b content = AIMessage.selectionText content range).
Proof.
  intros Hin Hxy Hy Hb.
  rewrite (clarifySelection_eq now mid content range st Hin), Hb.
  set (text := AIMessage.selectionText content range) in *.
  destruct (trim_slice text) as (a0 & b0 & Hab & Hbl & E).
  unfold text, AIMessage.selectionText in Hbl.
  rewrite slice_length in Hbl by assumption.
  assert (Eslice : trim text =
                   slice (AIMessage.startOffset range + a0)
                         (AIMessage.startOffset range + b0) content).
  { rewrite E. unfold text, AIMessage.selectionText.
    now rewrite slice_slice by assumption. }
  set (x := AIMessage.startOffset range + a0) in *.
  set (y := AIMessage.startOffset range + b0) in *.
  assert (Hocc : content = firstn x content ++ trim text ++ skipn y content).
  { rewrite Eslice. apply slice_occurs; subst x y; lia. }
  destruct (indexOf_finds (trim text) (firstn x content) (skipn y content) 0)
    as (i & Hi & _ & Ht).
  rewrite <- Hocc in Hi, Ht.
  exists (newClarification now mid (trim text)), i, (i + List.length (trim text)).
  assert (Hres : Resolver.resolve (newClarification now mid (trim text)) content
                 = Resolver.Found i (i + List.length (trim text))).
  { unfold Resolver.resolve. cbn [selectedText newClarification]. now rewrite Hi. }
  assert (Hs : slice i (i + List.length (trim text)) content = trim text).
  { unfold slice. now replace (i + List.length (trim text) - i)
                        with (List.length (trim text)) by lia. }
  split; [reflexivity |]. split; [reflexivity |]. split; [reflexivity |].
  split; [exact Hres |]. split; [rewrite Hres; discriminate |].
  split; [exact Hs |].
  intros H1 H2. rewrite Hs. apply trim_fixed. now split.
Qed.

Lemma anchor_round_trip_witness :
  exists anchor a b,
    activeClarification
      (AIMessage.clarifySelection t0 msg1 gradient withoutSpace initial) = Some anchor
    /\ clarifications
         (AIMessage.clarifySelection t0 msg1 gradient withoutSpace initial)
       = clarifications initial ++ [anchor]
    /\ messageId anchor = msg1
    /\ Resolver.resolve anchor gradient = Resolver.Found a b
    /\ Resolver.resolve anchor gradient <> Resolver.NotFound
    /\ slice a b gradient = trim (AIMessage.selectionText gradient withoutSpace)
    /\ (startsWithSpace (AIMessage.selectionText gradient withoutSpace) = false ->
        endsWithSpace (AIMessage.selectionText gradient withoutSpace) = false ->
        slice a b gradient = AIMessage.selectionText gradient withoutSpace).
Proof.
  apply (anchor_round_trip t0 msg1 gradient withoutSpace initial).
  - reflexivity.
  - simpl. lia.
  - vm_compute. lia.
  - reflexivity.
Defined.

(** In the example the words are found where they were selected. *)
Lemma anchor_round_trip_example :
  Resolver.resolve (newClarification t0 msg1 picked) gradient = Resolver.Found 23 45
  /\ slice 23 45 gradient = picked.
Proof. vm_compute. split; reflexivity. Qed.

(* ================================================================== *)
(** ** Sending messages *)
(* ================================================================== *)

Import Conversation.

Lemma appRun_snoc (a : App) (es : list AppEvent) (e : AppEvent) :
  appRun a (es ++ [e]) = appStep (appRun a es) e.
Proof. unfold appRun. now rewrite fold_left_app. Qed.

Lemma app_eta (a : App) :
  {| cells := {| store := store (cells a); inputValue := inputValue (cells a);
                 isLoading := isLoading (cells a) |};
     chatCalls := chatCalls a; calls := calls a; log := log a |} = a.
Proof. now destruct a as [[s i l] c p g]. Qed.

(** The messages after a clarification handler has run. *)
Lemma step_messages (w : World) (e : Event) :
  messages (state (step w e)) =
  messages (state w) ++ match e with message m => [m] | _ => [] end.
Proof.
  assert (Hs : forall cid req v,
             messages (state (doSubmit cid req v)) = messages (state v)).
  { intros cid req v. unfold doSubmit, handleClarificationSubmit_start.
    now destruct (find _ (clarifications (state v))). }
  destruct e as [now mid text | cid req | req | k res | | m];
    rewrite ?app_nil_r; try reflexivity.
  - apply Hs.
  - simpl. destruct (activeClarification (state w)) as [a |]; [| reflexivity].
    destruct (fst (ClarificationPanel.handleSubmit a req)) as [[cid r] |];
      [apply Hs | reflexivity].
  - destruct (nth_error (inflight w) k) as [p |] eqn:Hp.
    + rewrite (settle_state w k res p Hp). simpl.
      now destruct res as [| [|] r].
    + now rewrite (settle_none w k res Hp).
Qed.

Lemma sendStart_cases (c : Cells) (now : Z) :
  (blank (inputValue c) = true \/ isLoading c = true) /\
    handleSendMessage_start c now c = (ignored, c)
  \/
  (blank (inputValue c) = false /\ isLoading c = false) /\
    handleSendMessage_start c now c =
    (waiting (map (fun m => (role m, content m))
                (messages (store c) ++
                   [{| message_id := toString now; role := user;
                       content := inputValue c |}])),
     {| store := setMessages
                   (fun _ => messages (store c) ++
                      [{| message_id := toString now; role := user;
                          content := inputValue c |}]) (store c);
        inputValue := []; isLoading := true |}).
Proof.
  unfold handleSendMessage_start. rewrite truthy_trim, negb_involutive.
  destruct (blank (inputValue c)), (isLoading c); simpl; auto.
Qed.

Lemma appStep_oneCall (a : App) (e : AppEvent) : oneCall a -> oneCall (appStep a e).
Proof.
  unfold oneCall. intros H. destruct e as [v | now | k now res | e]; simpl.
  - exact H.
  - destruct (sendStart_cases (cells a) now) as [[_ ->] | [[_ Hl] ->]]; simpl.
    + now rewrite app_nil_r.
    + rewrite Hl in H. rewrite length_app, H. reflexivity.
  - destruct (nth_error (chatCalls a) k) as [b |] eqn:Hk; [| exact H].
    assert (Hlen : k < List.length (chatCalls a))
      by (apply nth_error_Some; congruence).
    destruct (isLoading (cells a)); [| lia].
    assert (k = 0) by lia. subst k.
    destruct (chatCalls a) as [| x [| y l]]; try discriminate.
    now destruct res as [| [|] r].
  - exact H.
Qed.

(** X1: in every state the application reaches, the loading flag is
    up exactly when a chat call is awaited, and at most one is. *)
Theorem one_chat_call_at_a_time (a : App) :
  appReachable a ->
  List.length (chatCalls a) <= 1
  /\ (isLoading (cells a) = true <-> List.length (chatCalls a) = 1).
Proof.
  intros [es ->].
  assert (H : oneCall (appRun initialApp es)).
  { induction es as [| e es IH] using rev_ind; [reflexivity |].
    rewrite appRun_snoc. now apply appStep_oneCall. }
  unfold oneCall in H. destruct (isLoading (cells (appRun initialApp es)));
    rewrite H; split; try lia; split; intros; congruence.
Qed.

Lemma one_chat_call_at_a_time_witness :
  List.length (chatCalls asking) <= 1
  /\ (isLoading (cells asking) = true <-> List.length (chatCalls asking) = 1).
Proof.
  apply (one_chat_call_at_a_time asking).
  exists [typed hello; send t0]. reflexivity.
Defined.

(** X2: a send with a blank input box, or while a reply is awaited,
    changes nothing at all. Any other send appends one user message
    with the text of the box, empties the box, raises the loading
    flag and starts one call, whose body is the whole history with
    that message at its end. *)
Theorem send_guard (a : App) (now : Z) :
  (blank (inputValue (cells a)) = true \/ isLoading (cells a) = true ->
   appStep a (send now) = a)
  /\ (blank (inputValue (cells a)) = false -> isLoading (cells a) = false ->
      let a' := appStep a (send now) in
      messages (store (cells a')) =
        messages (store (cells a)) ++
          [{| message_id := toString now; role := user;
              content := inputValue (cells a) |}]
      /\ inputValue (cells a') = []
      /\ isLoading (cells a') = true
      /\ chatCalls a' =
           chatCalls a ++
             [map (fun m => (role m, content m)) (messages (store (cells a')))]
      /\ worldOf a' =
           step (worldOf a)
             (message {| message_id := toString now; role := user;
                         content := inputValue (cells a) |})).
Proof.
  split.
  - intros H. simpl.
    destruct (sendStart_cases (cells a) now) as [[_ ->] | [[Hb Hl] _]].
    + rewrite app_nil_r. now destruct a as [[s i l] c p g].
    + destruct H; congruence.
  - intros Hb Hl a'. subst a'. simpl.
    destruct (sendStart_cases (cells a) now) as [[[H | H] _] | [_ ->]];
      try congruence.
    repeat split.
Qed.

Lemma send_guard_witness :
  appStep asking (send (t0 + 1)) = asking
  /\ appStep initialApp (send t0) = initialApp
  /\ messages (store (cells asking)) =
       messages initial ++
         [{| message_id := toString t0; role := user; content := hello |}].
Proof.
  split; [| split].
  - apply (proj1 (send_guard asking (t0 + 1))). right. reflexivity.
  - apply (proj1 (send_guard initialApp t0)). left. reflexivity.
  - apply (proj2 (send_guard (appStep initialApp (typed hello)) t0));
      reflexivity.
Defined.

Lemma appStep_messages (a : App) (e : AppEvent) :
  exists more,
    messages (store (cells (appStep a e))) = messages (store (cells a)) ++ more
    /\ (genuine e = true ->
        more = [] \/
        (exists now, e = send now /\ isLoading (cells a) = false
                     /\ isLoading (cells (appStep a e)) = true
                     /\ map role more = [user])
        \/ (exists k now res, e = chatSettled k now res
                     /\ k < List.length (chatCalls a)
                     /\ isLoading (cells (appStep a e)) = false
                     /\ map role more = [assistant]))
    /\ (more = [] -> genuine e = true ->
        isLoading (cells (appStep a e)) = isLoading (cells a)).
Proof.
  destruct e as [v | now | k now res | e].
  - exists []. simpl. rewrite app_nil_r. auto.
  - simpl. destruct (sendStart_cases (cells a) now) as [[_ ->] | [[_ Hl] ->]].
    + exists []. simpl. rewrite app_nil_r. auto.
    + eexists. simpl. split; [reflexivity |]. split.
      * intros _. right; left. exists now. auto.
      * discriminate.
  - simpl. destruct (nth_error (chatCalls a) k) as [b |] eqn:Hk.
    + assert (Hlen : k < List.length (chatCalls a))
        by (apply nth_error_Some; congruence).
      destruct res as [| [|] r]; simpl; eexists; (split; [reflexivity |]);
        (split; [intros _; right; right; exists k, now; eexists; auto
                | discriminate]).
    + exists []. rewrite app_nil_r. auto.
  - simpl. rewrite step_messages. eexists. split; [reflexivity |].
    split; [| reflexivity]. intros H. left. now destruct e.
Qed.

Lemma appRun_history (a : App) (es : list AppEvent) :
  exists more,
    messages (store (cells (appRun a es))) = messages (store (cells a)) ++ more.
Proof.
  induction es as [| e es [more IH]] using rev_ind.
  - exists []. simpl. now rewrite app_nil_r.
  - rewrite appRun_snoc.
    destruct (appStep_messages (appRun a es) e) as (more' & E & _).
    exists (more ++ more'). now rewrite E, IH, app_assoc.
Qed.

Lemma appStep_chat_frame (a : App) (e : AppEvent) :
  ofChat e = true ->
  clarifications (store (cells (appStep a e))) = clarifications (store (cells a))
  /\ activeClarification (store (cells (appStep a e)))
     = activeClarification (store (cells a))
  /\ calls (appStep a e) = calls a.
Proof.
  destruct e as [v | now | k now res | e]; intros H; try discriminate; simpl.
  - repeat split.
  - destruct (sendStart_cases (cells a) now) as [[_ ->] | [_ ->]]; repeat split.
  - destruct (nth_error (chatCalls a) k); [| repeat split].
    destruct res as [| [|] r]; repeat split.
Qed.

(** X3: no event takes a message away or changes one: the history
    before a run is the beginning of the history after it. And the
    chat keeps to the history: typing, sending and replies leave the
    stored clarifications, the active one and the clarification calls
    in flight as they were. *)
Theorem history_only_grows (a : App) (es : list AppEvent) :
  (exists more,
     messages (store (cells (appRun a es))) = messages (store (cells a)) ++ more)
  /\ (forallb ofChat es = true ->
      clarifications (store (cells (appRun a es))) = clarifications (store (cells a))
      /\ activeClarification (store (cells (appRun a es)))
         = activeClarification (store (cells a))
      /\ calls (appRun a es) = calls a).
Proof.
  split; [apply appRun_history |].
  induction es as [| e es IH] using rev_ind; intros H; [repeat split |].
  rewrite forallb_app in H. apply andb_prop in H. destruct H as [Hes He].
  simpl in He. rewrite andb_true_r in He.
  rewrite appRun_snoc.
  destruct (appStep_chat_frame (appRun a es) e He) as (E1 & E2 & E3).
  destruct (IH Hes) as (I1 & I2 & I3).
  rewrite E1, E2, E3. now repeat split.
Qed.

Lemma history_only_grows_witness :
  clarifications (store (cells told)) = []
  /\ activeClarification (store (cells told)) = None
  /\ calls told = [].
Proof.
  exact (proj2 (history_only_grows initialApp
                  [typed hello; send t0;
                   chatSettled 0 (t0 + 900) (fetch_response true gradient)])
               eq_refl).
Defined.

Lemma takeTurns_snoc (first : Role) (l : list Role) (r : Role) :
  takeTurns first (l ++ [r]) =
  takeTurns first l
  && role_eqb r (if Nat.even (List.length l) then first else otherRole first).
Proof.
  revert first. induction l as [| x l IH]; intros first.
  - simpl. now rewrite andb_true_r.
  - cbn [app takeTurns List.length]. rewrite IH, andb_assoc. f_equal.
    rewrite Nat.even_succ, <- Nat.negb_even.
    destruct (Nat.even (List.length l)), first; reflexivity.
Qed.

Lemma appStep_inTurn (a : App) (e : AppEvent) :
  genuine e = true -> inTurn a -> inTurn (appStep a e).
Proof.
  intros Hg (H1 & H2 & H3). split; [now apply appStep_oneCall |].
  destruct (appStep_messages a e) as (more & E & Hm & Hsame).
  specialize (Hm Hg). rewrite E.
  destruct Hm as [-> | [(now & _ & Hl & Hl' & Hr) | (k & now & res & _ & Hk & Hl' & Hr)]].
  - rewrite app_nil_r. rewrite (Hsame eq_refl Hg). now split.
  - destruct more as [| m [| m' more]]; try discriminate. simpl in Hr.
    injection Hr as Hr. rewrite map_app, length_app. simpl.
    rewrite takeTurns_snoc, H2, length_map, <- H3, Hl, Hr, Hl'. simpl.
    rewrite Nat.add_1_r, Nat.even_succ, <- Nat.negb_even, <- H3, Hl. now split.
  - destruct more as [| m [| m' more]]; try discriminate. simpl in Hr.
    injection Hr as Hr. rewrite map_app, length_app. simpl.
    assert (Hl : isLoading (cells a) = true).
    { unfold oneCall in H1. destruct (isLoading (cells a)); [reflexivity | lia]. }
    rewrite takeTurns_snoc, H2, length_map, <- H3, Hl, Hr, Hl'. simpl.
    rewrite Nat.add_1_r, Nat.even_succ, <- Nat.negb_even, <- H3, Hl. now split.
Qed.

(** X4: as long as only the chat appends messages, the roles of the
    history take turns from the greeting on, assistant then user then
    assistant, and a reply is awaited exactly when the number of
    messages is even, which is when the last one is the user's. *)
Theorem conversation_takes_turns (es : list AppEvent) :
  forallb genuine es = true ->
  let a := appRun initialApp es in
  takeTurns assistant (map role (messages (store (cells a)))) = true
  /\ isLoading (cells a) = Nat.even (List.length (messages (store (cells a))))
  /\ (isLoading (cells a) = true <->
      option_map role (last (map Some (messages (store (cells a)))) None)
        = Some user).
Proof.
  intros Hg a. subst a.
  assert (H : inTurn (appRun initialApp es)).
  { induction es as [| e es IH] using rev_ind.
    - repeat split.
    - rewrite forallb_app in Hg. apply andb_prop in Hg. destruct Hg as [Hes He].
      simpl in He. rewrite andb_true_r in He.
      rewrite appRun_snoc. apply appStep_inTurn; auto. }
  destruct H as (_ & H2 & H3). split; [exact H2 |]. split; [exact H3 |].
  rewrite H3. clear H3.
  destruct (appRun_history initialApp es) as [more Hne].
  set (l := messages (store (cells (appRun initialApp es)))) in *.
  clearbody l. clear es Hg.
  assert (G : forall (h : list Message) first,
             takeTurns first (map role h) = true ->
             option_map role (last (map Some h) None) =
             match h with
             | [] => None
             | _ => Some (if Nat.even (List.length h) then otherRole first else first)
             end).
  { clear. induction h as [| m l IH]; intros first Ht; [reflexivity |].
    simpl in Ht. apply andb_prop in Ht. destruct Ht as [Hm Ht].
    specialize (IH _ Ht). destruct l as [| m' l'].
    - simpl. destruct (role m), first; try discriminate; reflexivity.
    - change (last (map Some (m :: m' :: l')) None)
        with (last (map Some (m' :: l')) None).
      rewrite IH.
      change (List.length (m :: m' :: l')) with (S (List.length (m' :: l'))).
      rewrite Nat.even_succ, <- Nat.negb_even.
      destruct (Nat.even (List.length (m' :: l'))), first; reflexivity. }
  rewrite (G l assistant H2). destruct l as [| m l]; [discriminate Hne |].
  destruct (Nat.even (List.length (m :: l))); simpl; split; congruence.
Qed.

Lemma conversation_takes_turns_witness :
  takeTurns assistant (map role (messages (store (cells told)))) = true
  /\ isLoading (cells told) = Nat.even (List.length (messages (store (cells told))))
  /\ (isLoading (cells told) = true <->
      option_map role (last (map Some (messages (store (cells told)))) None)
        = Some user).
Proof.
  exact (conversation_takes_turns
           [typed hello; send t0;
            chatSettled 0 (t0 + 900) (fetch_response true gradient)]
           eq_refl).
Defined.

(* ================================================================== *)
(** ** More on the clarification store *)
(* ================================================================== *)

Lemma sameAnchor_refl c : sameAnchor c c.
Proof. repeat split. Qed.

Lemma sameAnchor_trans c d e : sameAnchor c d -> sameAnchor d e -> sameAnchor c e.
Proof. intros (A & B & C) (A' & B' & C'). repeat split; congruence. Qed.

Lemma markPending_anchor cid req c : sameAnchor (markPending cid req c) c.
Proof. unfold markPending. destruct (eqb (id c) cid); repeat split. Qed.

Lemma markCompleted_anchor cid r c : sameAnchor (markCompleted cid r c) c.
Proof. unfold markCompleted. destruct (eqb (id c) cid); repeat split. Qed.

(** The store after an event: the clarifications it held, each one
    touched, and the new one if the event creates one. *)
Lemma step_shape (w : World) (e : Event) :
  exists f,
    clarifications (state (step w e)) =
      map f (clarifications (state w)) ++
      match e with
      | clarify now mid text => [newClarification now mid text]
      | _ => []
      end
    /\ forall c, touched (f c) c.
Proof.
  assert (Hid : forall c : Clarification, touched c c)
    by (intros c; split; [apply sameAnchor_refl | now left]).
  assert (Hs : forall cid req v, exists f,
             clarifications (state (doSubmit cid req v)) =
             map f (clarifications (state v)) /\ forall c, touched (f c) c).
  { intros cid req v. rewrite doSubmit_clarifications.
    destruct (find _ (clarifications (state v))) as [found |].
    - exists (markPending cid req). split; [reflexivity |]. intros c.
      split; [apply markPending_anchor |].
      unfold markPending. destruct (eqb (id c) cid); [right; left | left]; auto.
    - exists (fun c => c). split; [now rewrite map_id | exact Hid]. }
  assert (Hn : forall v : World, exists f,
             clarifications (state v) = map f (clarifications (state v)) ++ []
             /\ forall c, touched (f c) c).
  { intros v. exists (fun c => c). now rewrite map_id, app_nil_r. }
  assert (Hs' : forall cid req, exists f,
             clarifications (state (doSubmit cid req w)) =
             map f (clarifications (state w)) ++ [] /\ forall c, touched (f c) c).
  { intros cid req. destruct (Hs cid req w) as (f & E & Hf).
    exists f. now rewrite app_nil_r. }
  destruct e as [now mid text | cid req | req | k res | | m].
  - exists (fun c => c). simpl. now rewrite map_id.
  - apply Hs'.
  - simpl. destruct (activeClarification (state w)) as [a |]; [| apply Hn].
    destruct (fst (ClarificationPanel.handleSubmit a req)) as [[cid r] |];
      [apply Hs' | apply Hn].
  - destruct (nth_error (inflight w) k) as [p |] eqn:Hp.
    + rewrite (settle_state w k res p Hp). simpl. rewrite resume_clarifications.
      eexists. rewrite app_nil_r. split; [reflexivity |]. intros c.
      split; [apply markCompleted_anchor |].
      unfold markCompleted. destruct (eqb (id c) (clarificationId p));
        [right; right; simpl; eauto | now left].
    + rewrite (settle_none w k res Hp). apply Hn.
  - apply (Hn w).
  - apply (Hn w).
Qed.

Lemma step_stored (w : World) (e : Event) (i : nat) (c : Clarification) :
  stored w i = Some c ->
  exists c', stored (step w e) i = Some c' /\ touched c' c.
Proof.
  unfold stored. intros H. destruct (step_shape w e) as (f & -> & Hf).
  exists (f c). split; [| apply Hf].
  rewrite nth_error_app1.
  - now rewrite nth_error_map, H.
  - rewrite length_map. apply nth_error_Some. congruence.
Qed.

(** X5: a stored clarification keeps its place in the store, its id,
    its message and its selected text through every run: no event
    removes, moves or re-anchors a clarification. *)
Theorem anchors_are_immutable (w : World) (es : list Event) (i : nat) (c : Clarification) :
  stored w i = Some c ->
  exists c', stored (run w es) i = Some c'
             /\ id c' = id c
             /\ messageId c' = messageId c
             /\ selectedText c' = selectedText c.
Proof.
  intros H. induction es as [| e es (c1 & H1 & A)] using rev_ind.
  - exists c. repeat split. exact H.
  - rewrite run_snoc.
    destruct (step_stored (run w es) e i c1 H1) as (c2 & H2 & (B & _)).
    exists c2. split; [exact H2 |].
    destruct B as (B1 & B2 & B3), A as (A1 & A2 & A3). repeat split; congruence.
Qed.

Lemma anchors_are_immutable_witness :
  exists c', stored answered 0 = Some c'
             /\ id c' = toString t0
             /\ messageId c' = msg1
             /\ selectedText c' = picked.
Proof.
  exact (anchors_are_immutable created
           [submit (toString t0) question; settle 0 (fetch_response true answer)]
           0 (newClarification t0 msg1 picked) eq_refl).
Defined.

(** X6: in every reachable world a stored clarification whose status
    is [completed] has a response, the answer or the apology. *)
Theorem completed_has_response (w : World) (c : Clarification) :
  reachable w ->
  In c (clarifications (state w)) ->
  status c = completed ->
  exists r, response c = Some r.
Proof.
  intros [es ->]. revert c.
  induction es as [| e es IH] using rev_ind; intros c Hin Hc.
  - destruct Hin.
  - rewrite run_snoc in Hin.
    destruct (step_shape (run initialWorld es) e) as (f & E & Hf).
    rewrite E in Hin. apply in_app_or in Hin. destruct Hin as [Hin | Hin].
    + apply in_map_iff in Hin. destruct Hin as (c0 & <- & Hin0).
      destruct (Hf c0) as (_ & [Heq | [(Hp & _) | (_ & Hr)]]).
      * rewrite Heq in *. now apply IH.
      * congruence.
      * exact Hr.
    + destruct e; try destruct Hin as [<- | []]; try destruct Hin. discriminate Hc.
Qed.

Lemma completed_has_response_witness :
  exists r, response (withResponse errorResponse
                        (markPending (toString t0) question
                           (newClarification t0 msg1 picked))) = Some r.
Proof.
  apply (completed_has_response rejected).
  - exists [clarify t0 msg1 picked; submit (toString t0) question;
            settle 0 fetch_rejected]. reflexivity.
  - left. reflexivity.
  - reflexivity.
Defined.

(** Where the active clarification of the next world comes from: it
    is the one of before, or the one just created, or the snapshot of
    a call that ended well while the clarification it was submitted
    for was active. *)
Lemma step_active (w : World) (e : Event) (a' : Clarification) :
  activeClarification (state (step w e)) = Some a' ->
  activeClarification (state w) = Some a'
  \/ (exists now mid text, e = clarify now mid text
                           /\ a' = newClarification now mid text)
  \/ (exists p r a, In p (inflight w)
                    /\ activeClarification (state w) = Some a
                    /\ id a = clarificationId p
                    /\ a' = withResponse r (snapshot p)).
Proof.
  destruct e as [now mid text | cid req | req | k res | | m].
  - simpl. intros [= <-]. right; left. now exists now, mid, text.
  - simpl. rewrite doSubmit_active. auto.
  - simpl. destruct (activeClarification (state w)) as [a |] eqn:Ha; [| rewrite Ha; auto].
    destruct (fst (ClarificationPanel.handleSubmit a req)) as [[cid r] |];
      [rewrite doSubmit_active | ]; rewrite Ha; auto.
  - destruct (nth_error (inflight w) k) as [p |] eqn:Hp.
    + rewrite (settle_state w k res p Hp).
      destruct res as [| [|] r]; simpl; auto.
      destruct (activeClarification (state w)) as [a |] eqn:Ha; [| discriminate].
      destruct (eqb (id a) (clarificationId p)) eqn:E; auto.
      intros [= <-]. right; right. apply eqb_eq in E.
      exists p, r, a. split; [eapply nth_error_In, Hp | auto].
    + rewrite (settle_none w k res Hp). auto.
  - discriminate.
  - simpl. auto.
Qed.



Lemma step_keeps_anchor (w : World) (e : Event) (c : Clarification) :
  In c (clarifications (state w)) ->
  exists c', In c' (clarifications (state (step w e))) /\ sameAnchor c' c.
Proof.
  intros H. destruct (step_shape w e) as (f & -> & Hf).
  exists (f c). split; [| apply Hf].
  apply in_or_app. left. now apply in_map.
Qed.

Lemma step_inflight (w : World) (e : Event) (p : Pending) :
  In p (inflight (step w e)) ->
  In p (inflight w)
  \/ (id (snapshot p) = clarificationId p
      /\ In (snapshot p) (clarifications (state w))).
Proof.
  assert (Hs : forall cid req,
             In p (inflight (doSubmit cid req w)) ->
             In p (inflight w)
             \/ (id (snapshot p) = clarificationId p
                 /\ In (snapshot p) (clarifications (state w)))).
  { intros cid req. unfold doSubmit, handleClarificationSubmit_start.
    destruct (find _ (clarifications (state w))) as [found |] eqn:Hf; simpl.
    - rewrite in_app_iff. intros [H | [<- | []]]; [now left |].
      right. simpl. apply find_id_some in Hf. tauto.
    - rewrite app_nil_r. now left. }
  destruct e as [now mid text | cid req | req | k res | | m]; try (now left).
  - apply Hs.
  - simpl. destruct (activeClarification (state w)) as [a |]; [| now left].
    destruct (fst (ClarificationPanel.handleSubmit a req)) as [[cid r] |];
      [apply Hs | now left].
  - destruct (nth_error (inflight w) k) as [q |] eqn:Hq.
    + rewrite (settle_state w k res q Hq). simpl. intros H. left.
      eapply In_remove_nth, H.
    + rewrite (settle_none w k res Hq). now left.
Qed.

Lemma step_anchored (w : World) (e : Event) : anchored w -> anchored (step w e).
Proof.
  intros [Ha Hp]. split.
  - intros a' H. apply step_active in H.
    destruct H as [H | [(now & mid & text & -> & ->) | (p & r & a & Hin & _ & _ & ->)]].
    + destruct (Ha a' H) as (c & Hc & S).
      destruct (step_keeps_anchor w e c Hc) as (c' & Hc' & S').
      exists c'. split; [exact Hc' | eapply sameAnchor_trans; eauto].
    + exists (newClarification now mid text). split; [| apply sameAnchor_refl].
      simpl. apply in_or_app. right. now left.
    + destruct (Hp p Hin) as (_ & c & Hc & S).
      destruct (step_keeps_anchor w e c Hc) as (c' & Hc' & S').
      exists c'. split; [exact Hc' |].
      eapply sameAnchor_trans; [exact S' |]. destruct S as (S1 & S2 & S3).
      repeat split; assumption.
  - intros p H. apply step_inflight in H. destruct H as [H | [Hid Hin]].
    + destruct (Hp p H) as (Hid & c & Hc & S). split; [exact Hid |].
      destruct (step_keeps_anchor w e c Hc) as (c' & Hc' & S').
      exists c'. split; [exact Hc' | eapply sameAnchor_trans; eauto].
    + split; [exact Hid |].
      destruct (step_keeps_anchor w e _ Hin) as (c' & Hc' & S').
      now exists c'.
Qed.

Lemma reachable_anchored (w : World) : reachable w -> anchored w.
Proof.
  intros [es ->]. induction es as [| e es IH] using rev_ind.
  - split; [intros a H; discriminate H | intros p []].
  - rewrite run_snoc. now apply step_anchored.
Qed.

Lemma NoDup_map_In_eq {A B} (f : A -> B) (l : list A) (x y : A) :
  NoDup (map f l) -> In x l -> In y l -> f x = f y -> x = y.
Proof.
  induction l as [| z l IH]; simpl; intros Hn Hx Hy E; [destruct Hx |].
  inversion Hn as [| ? ? Hnot Hn']; subst.
  destruct Hx as [-> | Hx], Hy as [-> | Hy]; auto.
  - exfalso. apply Hnot. rewrite E. now apply in_map.
  - exfalso. apply Hnot. rewrite <- E. now apply in_map.
Qed.

(** X8: while the ids in the store are pairwise distinct, the panel
    keeps to its selection: if the active clarification has the same
    id before and after an event, it has the same message and the
    same selected text. *)
Theorem panel_keeps_its_selection
    (w : World) (e : Event) (a a' : Clarification) :
  reachable w ->
  NoDup (map id (clarifications (state (step w e)))) ->
  activeClarification (state w) = Some a ->
  activeClarification (state (step w e)) = Some a' ->
  id a' = id a ->
  messageId a' = messageId a /\ selectedText a' = selectedText a.
Proof.
  intros Hr Hn Ha Ha' Hid.
  destruct (reachable_anchored w Hr) as [Hact Hfl].
  rewrite step_ids in Hn.
  apply step_active in Ha'.
  destruct Ha' as [H | [(now & mid & text & -> & ->) | (p & r & a0 & Hin & H0 & Hp & ->)]].
  - rewrite Ha in H. injection H as <-. now split.
  - exfalso. destruct (Hact a Ha) as (c & Hc & (S & _)).
    apply NoDup_remove_2 in Hn. rewrite app_nil_r in Hn. apply Hn.
    simpl in Hid. rewrite Hid, <- S. now apply in_map.
  - rewrite Ha in H0. injection H0 as <-.
    destruct (Hact a Ha) as (c & Hc & (S1 & S2 & S3)).
    destruct (Hfl p Hin) as (Hsp & d & Hd & (T1 & T2 & T3)).
    apply NoDup_app_remove_r in Hn.
    assert (c = d).
    { apply (NoDup_map_In_eq id _ c d Hn Hc Hd). congruence. }
    subst d. simpl. split; congruence.
Qed.

Lemma panel_keeps_its_selection_witness :
  messageId (withResponse answer (newClarification t0 msg1 picked)) = msg1
  /\ selectedText (withResponse answer (newClarification t0 msg1 picked)) = picked.
Proof.
  apply (panel_keeps_its_selection submitted
           (settle 0 (fetch_response true answer))
           (newClarification t0 msg1 picked)
           (withResponse answer (newClarification t0 msg1 picked))).
  - exists [clarify t0 msg1 picked; submit (toString t0) question]. reflexivity.
  - vm_compute. constructor; [intros [] | constructor].
  - reflexivity.
  - reflexivity.
  - reflexivity.
Defined.

(** With two clarifications created at one clock reading the panel
    does change its selection: it is mounted for the second, and the
    answer puts the first in its place. *)
Lemma shared_id_swaps_the_panel :
  option_map selectedText (activeClarification (state twins)) = Some other
  /\ option_map selectedText
       (activeClarification
          (state (run twins [submit (toString t0) question;
                             settle 0 (fetch_response true answer)])))
     = Some picked.
Proof. vm_compute. split; reflexivity. Qed.

(** X9: a call never ends on a clarification that is gone. In a
    reachable world the id of a call in flight is the id of a stored
    clarification; when the call ends, that clarification becomes
    [completed] with the answer, or with the apology if the call
    failed, and the call leaves the calls in flight. *)
Theorem settle_finds_its_clarification
    (w : World) (k : nat) (p : Pending) (res : FetchResult) :
  reachable w ->
  nth_error (inflight w) k = Some p ->
  let w' := step w (settle k res) in
  (exists i c,
     stored w i = Some c /\ id c = clarificationId p
     /\ stored w' i =
        Some (withResponse
                (match res with
                 | fetch_response true r => r
                 | _ => errorResponse
                 end) c))
  /\ S (List.length (inflight w')) = List.length (inflight w).
Proof.
  intros Hr Hp w'. subst w'.
  destruct (reachable_anchored w Hr) as [_ Hfl].
  destruct (Hfl p (nth_error_In _ _ Hp)) as (Hid & c & Hc & (S1 & _)).
  apply In_nth_error in Hc. destruct Hc as [i Hi].
  rewrite (settle_state w k res p Hp). split.
  - exists i, c. split; [exact Hi |]. split; [congruence |].
    unfold stored. simpl.
    rewrite resume_clarifications, nth_error_map.
    unfold stored in Hi. rewrite Hi. simpl.
    rewrite markCompleted_same by congruence. reflexivity.
  - simpl. unfold remove_nth.
    assert (Hk : k < List.length (inflight w))
      by (apply nth_error_Some; congruence).
    rewrite length_app, length_firstn, length_skipn. lia.
Qed.

Lemma settle_finds_its_clarification_witness :
  (exists i c,
     stored submitted i = Some c /\ id c = clarificationId firstCall
     /\ stored rejected i = Some (withResponse errorResponse c))
  /\ S (List.length (inflight rejected)) = List.length (inflight submitted).
Proof.
  apply (settle_finds_its_clarification submitted 0 firstCall fetch_rejected).
  - exists [clarify t0 msg1 picked; submit (toString t0) question]. reflexivity.
  - reflexivity.
Defined.

Lemma lastn_suffix {A} (n : nat) (l : list A) :
  exists older, l = older ++ lastn n l
                /\ List.length (lastn n l) = Nat.min n (List.length l).
Proof.
  unfold lastn. exists (firstn (List.length l - n) l).
  split; [now rewrite firstn_skipn |]. rewrite length_skipn. lia.
Qed.

(** X10: what a submit sends. For a stored id the body holds the
    selected text of the first stored clarification with that id, the
    request as submitted, and as context the last five messages of
    the history, or all of them if there are fewer, each as its role,
    a colon and its content, in order. *)
Theorem submit_sends_last_five
    (w : World) (cid req : jsstring) (c0 : Clarification) :
  find (fun c => eqb (id c) cid) (clarifications (state w)) = Some c0 ->
  exists p older recent,
    inflight (step w (submit cid req)) = inflight w ++ [p]
    /\ clarificationId p = cid
    /\ body_selectedText (body p) = selectedText c0
    /\ userQuestion (body p) = req
    /\ messages (state w) = older ++ recent
    /\ List.length recent = Nat.min 5 (List.length (messages (state w)))
    /\ conversationContext (body p) =
       map (fun m => role_literal (role m) ++ str ": " ++ content m) recent.
Proof.
  intros H. rewrite (submit_known_id w cid req c0 H).
  destruct (lastn_suffix 5 (messages (state w))) as (older & E & L).
  eexists. exists older, (lastn 5 (messages (state w))).
  simpl. repeat split; assumption.
Qed.

Lemma submit_sends_last_five_witness :
  exists p older recent,
    inflight submitted = [p]
    /\ clarificationId p = toString t0
    /\ body_selectedText (body p) = picked
    /\ userQuestion (body p) = question
    /\ messages (state created) = older ++ recent
    /\ List.length recent = Nat.min 5 (List.length (messages (state created)))
    /\ conversationContext (body p) =
       map (fun m => role_literal (role m) ++ str ": " ++ content m) recent.
Proof.
  exact (submit_sends_last_five created (toString t0) question
           (newClarification t0 msg1 picked) eq_refl).
Defined.

(** X11: the panel of a clarification that was just created. Its
    button is disabled whatever the text box holds, since the status
    is [pending] from the start, and reads as if a call were under
    way. The Enter key is not held back: with a text box that is not
    blank it submits the clarification, clears the box and starts the
    call; with Shift held, or a blank box, it does nothing. *)
Theorem new_clarification_needs_enter
    (w : World) (now : Z) (mid text req : jsstring) :
  let c := newClarification now mid text in
  let w1 := step w (clarify now mid text) in
  presented w1 = [c]
  /\ PanelView.submitDisabled c req = true
  /\ PanelView.buttonLabel c = str "Getting clarification..."
  /\ PanelView.handleKeyPress (str "Enter") true c req = (None, req)
  /\ (blank req = true ->
      PanelView.handleKeyPress (str "Enter") false c req = (None, req))
  /\ (blank req = false ->
      PanelView.handleKeyPress (str "Enter") false c req = (Some (id c, req), [])
      /\ step w1 (panelSubmit req) = step w1 (submit (id c) req)
      /\ exists p, inflight (step w1 (panelSubmit req)) = inflight w ++ [p]
                   /\ clarificationId p = id c /\ userQuestion (body p) = req).
Proof.
  intros c w1. split; [reflexivity |].
  split; [unfold PanelView.submitDisabled; simpl; apply orb_true_r |].
  split; [reflexivity |]. split; [reflexivity |].
  assert (Hk : PanelView.handleKeyPress (str "Enter") false c req =
               if blank req then (None, req) else (Some (id c, req), [])).
  { unfold PanelView.handleKeyPress, ClarificationPanel.handleSubmit.
    rewrite eqb_refl, truthy_trim. now destruct (blank req). }
  rewrite Hk. split.
  - now intros ->.
  - intros Hb. rewrite Hb. split; [reflexivity |].
    assert (E : step w1 (panelSubmit req) = step w1 (submit (id c) req)).
    { simpl. unfold ClarificationPanel.handleSubmit.
      now rewrite truthy_trim, Hb. }
    split; [exact E |]. rewrite E.
    assert (Hin : In (id c) (map id (clarifications (state w1)))).
    { subst w1. rewrite step_ids. apply in_or_app. right. now left. }
    destruct (find (fun x => eqb (id x) (id c)) (clarifications (state w1)))
      as [c0 |] eqn:Hf.
    + rewrite (submit_known_id w1 (id c) req c0 Hf). eexists.
      split; [reflexivity |]. now split.
    + exfalso. apply in_map_iff in Hin. destruct Hin as (x & Hx & Hxin).
      apply (find_none _ _ Hf) in Hxin. simpl in Hxin.
      rewrite Hx, eqb_refl in Hxin. discriminate.
Qed.

Lemma new_clarification_needs_enter_witness :
  PanelView.submitDisabled (newClarification t0 msg1 picked) question = true
  /\ PanelView.handleKeyPress (str "Enter") false
       (newClarification t0 msg1 picked) question
     = (Some (toString t0, question), [])
  /\ step created (panelSubmit question) = submitted.
Proof.
  pose proof (new_clarification_needs_enter initialWorld t0 msg1 picked question)
    as (_ & Hd & _ & _ & _ & H).
  destruct (H eq_refl) as (Hk & Hs & _).
  split; [exact Hd |]. split; [exact Hk | exact Hs].
Defined.

(* ================================================================== *)
(** ** What the message components hand over *)
(* ================================================================== *)

Lemma startsWithSpace_firstn (m : nat) (t : jsstring) :
  startsWithSpace t = false -> startsWithSpace (firstn m t) = false.
Proof. destruct m, t; simpl; auto. Qed.

Lemma trim_trim (s : jsstring) : trim (trim s) = trim s.
Proof.
  apply trim_fixed. split.
  - unfold trim. destruct (trimEnd_firstn (trimStart s)) as (m & _ & ->).
    apply startsWithSpace_firstn, trimStart_head.
  - unfold trim, trimEnd, endsWithSpace. rewrite rev_involutive.
    apply trimStart_head.
Qed.

Lemma trim_clean (s : jsstring) : blank s = false -> clean (trim s).
Proof.
  intros H. split; [| apply trim_trim].
  intros E. apply trim_blank in E. congruence.
Qed.

Lemma handleMouseUp_ok content onButton sel ui :
  candidateOk (AIMessage.selectedText ui) (AIMessage.showClarifyButton ui) ->
  candidateOk (AIMessage.selectedText (AIMessage.handleMouseUp content onButton sel ui))
              (AIMessage.showClarifyButton (AIMessage.handleMouseUp content onButton sel ui)).
Proof.
  intros H. unfold AIMessage.handleMouseUp.
  destruct (onButton || AIMessage.isClarifyingRef ui); [exact H |].
  destruct sel as [range |]; [| now left].
  rewrite truthy_trim, negb_involutive.
  destruct (blank (AIMessage.selectionText content range)) eqn:Hb; [now left |].
  destruct (AIMessage.isInMessage range); simpl; [| now left].
  right. split; [now apply trim_clean | reflexivity].
Qed.

(** X12: whatever mouse-ups came before, the Clarify button of an
    [AIMessage] is shown exactly when there is a candidate text, and
    a click on it either changes nothing or creates a clarification
    whose selected text is not empty and has no white space at its
    ends. *)
Theorem aimessage_hands_over_clean_text
    (content : jsstring) (ups : list (bool * option AIMessage.Selection))
    (now : Z) (mid : jsstring) (sel : option AIMessage.Selection) (st : State) :
  let ui := afterMouseUps content ups in
  let st' := fst (fst (AIMessage.handleClarify now mid sel ui st)) in
  (AIMessage.showClarifyButton ui = truthy (AIMessage.selectedText ui))
  /\ ((AIMessage.showClarifyButton ui = false /\ st' = st)
      \/ (AIMessage.showClarifyButton ui = true
          /\ clean (AIMessage.selectedText ui)
          /\ st' = handleTextSelection now mid (AIMessage.selectedText ui) st)).
Proof.
  intros ui st'. subst st'.
  assert (H : candidateOk (AIMessage.selectedText ui) (AIMessage.showClarifyButton ui)).
  { subst ui. unfold afterMouseUps.
    induction ups as [| up ups IH] using rev_ind; [now left |].
    rewrite fold_left_app. simpl. now apply handleMouseUp_ok. }
  unfold AIMessage.handleClarify.
  destruct H as [[Ht Hs] | [[Hne Htrim] Hs]]; rewrite Hs.
  - rewrite Ht. simpl. split; [reflexivity |]. left. now split.
  - destruct (AIMessage.selectedText ui) as [| c t] eqn:E; [congruence |].
    simpl. split; [reflexivity |]. right. repeat split; congruence.
Qed.

Lemma gesture_ok content ui g :
  candidateOk (MessageBubble.selectedText ui) (MessageBubble.showContextMenu ui) ->
  candidateOk (MessageBubble.selectedText (MessageBubble.gesture content ui g))
              (MessageBubble.showContextMenu (MessageBubble.gesture content ui g)).
Proof.
  intros H. destruct g as [[range |] | onMenu inMessage]; simpl; try exact H.
  - rewrite truthy_trim.
    destruct (blank (AIMessage.selectionText content range)) eqn:Hb; [exact H |].
    destruct (AIMessage.isInMessage range); simpl; [| exact H].
    right. split; [now apply trim_clean | reflexivity].
  - unfold MessageBubble.handleClick.
    destruct onMenu; [exact H |]. destruct inMessage; [exact H | now left].
Qed.

(** X13: the context menu of a [MessageBubble]. Whatever gestures
    came before, the menu is shown exactly when there is a candidate
    text, and its button either changes nothing or creates a
    clarification whose selected text is not empty and has no white
    space at its ends. A selection that is blank or outside the
    message, and a click on the menu or inside the message, leave
    the candidate as it is; only a click outside both drops it. *)
Theorem bubble_hands_over_clean_text
    (content : jsstring) (gs : list MessageBubble.Gesture)
    (now : Z) (mid : jsstring) (st : State) :
  let ui := afterGestures content gs in
  let st' := fst (MessageBubble.handleClarify now mid ui st) in
  (MessageBubble.showContextMenu ui = truthy (MessageBubble.selectedText ui))
  /\ ((MessageBubble.showContextMenu ui = false /\ st' = st)
      \/ (MessageBubble.showContextMenu ui = true
          /\ clean (MessageBubble.selectedText ui)
          /\ st' = handleTextSelection now mid (MessageBubble.selectedText ui) st))
  /\ (forall range,
        blank (AIMessage.selectionText content range) = true
        \/ AIMessage.isInMessage range = false ->
        MessageBubble.gesture content ui (MessageBubble.select (Some range)) = ui)
  /\ (forall onMenu inMessage,
        MessageBubble.gesture content ui (MessageBubble.click onMenu inMessage) =
        if onMenu || inMessage then ui else MessageBubble.initialUi).
Proof.
  intros ui st'. subst st'.
  assert (H : candidateOk (MessageBubble.selectedText ui)
                          (MessageBubble.showContextMenu ui)).
  { subst ui. unfold afterGestures.
    induction gs as [| g gs IH] using rev_ind; [now left |].
    rewrite fold_left_app. simpl. now apply gesture_ok. }
  split; [| split; [| split]].
  - destruct H as [[-> ->] | [[Hne _] ->]]; [reflexivity |].
    now destruct (MessageBubble.selectedText ui).
  - unfold MessageBubble.handleClarify.
    destruct H as [[Ht Hs] | [[Hne Htrim] Hs]]; rewrite Hs.
    + rewrite Ht. left. now split.
    + destruct (MessageBubble.selectedText ui) as [| c t] eqn:E; [congruence |].
      right. repeat split; congruence.
  - intros range Hr. simpl. rewrite truthy_trim.
    destruct Hr as [-> | ->]; [reflexivity |]. now rewrite andb_false_r.
  - intros onMenu inMessage. simpl. unfold MessageBubble.handleClick.
    now destruct onMenu, inMessage.
Qed.

Lemma bubble_hands_over_clean_text_witness :
  MessageBubble.gesture gradient
    (afterGestures gradient [MessageBubble.select (Some withSpace)])
    (MessageBubble.select (Some (AIMessage.mkSelection 22 23 true)))
  = afterGestures gradient [MessageBubble.select (Some withSpace)]
  /\ MessageBubble.selectedText
       (afterGestures gradient [MessageBubble.select (Some withSpace)]) = picked.
Proof.
  split; [| reflexivity].
  apply (bubble_hands_over_clean_text gradient
           [MessageBubble.select (Some withSpace)] t0 msg1 initial).
  left. reflexivity.
Defined.

(** X14: the text on the button of the context menu repeats at most
    the first twenty code units of the selection: it is never longer
    than twenty-three, it begins as the selection does, and a
    selection of up to twenty code units is shown whole. *)
Theorem preview_is_short (s : jsstring) :
  List.length (MessageBubble.preview s) <= 23
  /\ firstn 20 (MessageBubble.preview s) = firstn 20 s
  /\ (List.length s <= 20 -> MessageBubble.preview s = s)
  /\ (20 < List.length s ->
      MessageBubble.preview s = firstn 20 s ++ str "...").
Proof.
  unfold MessageBubble.preview.
  destruct (20 <? List.length s) eqn:E.
  - apply Nat.ltb_lt in E. split; [| split; [| split]].
    + rewrite length_app, length_firstn.
      change (List.length (str "...")) with 3. lia.
    + rewrite firstn_app, length_firstn.
      replace (20 - Nat.min 20 (List.length s)) with 0 by lia.
      now rewrite firstn_firstn, app_nil_r.
    + intros H. lia.
    + reflexivity.
  - apply Nat.ltb_ge in E. split; [lia |]. split; [reflexivity |].
    split; [reflexivity |]. intros H. lia.
Qed.

Lemma preview_is_short_witness :
  MessageBubble.preview picked = str "optimization algorit..."
  /\ MessageBubble.preview other = other.
Proof.
  split.
  - apply (proj2 (proj2 (proj2 (preview_is_short picked)))). vm_compute. lia.
  - apply (proj1 (proj2 (proj2 (preview_is_short other)))). vm_compute. lia.
Defined.

(* ================================================================== *)
(** ** The input box keeps plain text *)
(* ================================================================== *)

Lemma strip_no_gt (b : bool) (s : jsstring) :
  existsb (N.eqb ChatInput.gt_sign) s = false ->
  existsb (N.eqb ChatInput.gt_sign) (ChatInput.strip b s) = false.
Proof.
  revert b. induction s as [| c s IH]; intros b H; [reflexivity |].
  cbn [existsb] in H. apply orb_false_elim in H. destruct H as [Hc Hs].
  cbn [ChatInput.strip]. rewrite Hs, andb_false_r, (N.eqb_sym c), Hc.
  destruct b; [now apply IH |]. cbn [existsb]. rewrite Hc. now apply IH.
Qed.

Lemma strip_hasTag (b : bool) (s : jsstring) :
  ChatInput.hasTag (ChatInput.strip b s) = false.
Proof.
  revert b. induction s as [| c s IH]; intros b; [reflexivity |].
  cbn [ChatInput.strip]. destruct b.
  - destruct (N.eqb c ChatInput.gt_sign); apply IH.
  - destruct (N.eqb c ChatInput.lt_sign) eqn:Hc; cbn [andb].
    + destruct (existsb (N.eqb ChatInput.gt_sign) s) eqn:Hs; [apply IH |].
      cbn [ChatInput.hasTag]. rewrite Hc, (strip_no_gt false s Hs), IH. reflexivity.
    + cbn [ChatInput.hasTag]. rewrite Hc, IH. reflexivity.
Qed.

Lemma strip_fixed (s : jsstring) :
  ChatInput.hasTag s = false -> ChatInput.strip false s = s.
Proof.
  induction s as [| c s IH]; [reflexivity |].
  cbn [ChatInput.hasTag ChatInput.strip]. intros H.
  apply orb_false_elim in H. destruct H as [Hc Hs].
  rewrite Hc. f_equal. now apply IH.
Qed.

Lemma strip_length (b : bool) (s : jsstring) :
  List.length (ChatInput.strip b s) <= List.length s.
Proof.
  revert b. induction s as [| c s IH]; intros b; [reflexivity |].
  cbn [ChatInput.strip List.length]. destruct b.
  - destruct (N.eqb c ChatInput.gt_sign);
      [specialize (IH false) | specialize (IH true)]; lia.
  - destruct (N.eqb c ChatInput.lt_sign && existsb (N.eqb ChatInput.gt_sign) s);
      [specialize (IH true) | specialize (IH false); cbn [List.length]]; lia.
Qed.

(** X15: the input box lets no markup through. The value handed to
    [onChange] has no tag left in it, no [<] with a [>] after it; it
    is the text that was in the box when that had no tag, never
    longer than it, and stripping it again changes nothing. After the
    handler the box holds that same value. *)
Theorem input_is_plain_text (t : jsstring) :
  let value := snd (ChatInput.handleInput (Some t)) in
  value = ChatInput.stripTags t
  /\ fst (ChatInput.handleInput (Some t)) = Some value
  /\ ChatInput.hasTag value = false
  /\ ChatInput.stripTags value = value
  /\ List.length value <= List.length t
  /\ (ChatInput.hasTag t = false -> value = t).
Proof.
  intros value. subst value.
  assert (E : snd (ChatInput.handleInput (Some t)) = ChatInput.stripTags t).
  { unfold ChatInput.handleInput. now destruct t. }
  rewrite E. split; [reflexivity |]. split.
  - unfold ChatInput.handleInput. destruct t as [| c t]; [reflexivity |].
    cbn [truthy fst].
    destruct (eqb (ChatInput.stripTags (c :: t)) (c :: t)) eqn:Hq; [| reflexivity].
    apply eqb_eq in Hq. now rewrite Hq.
  - unfold ChatInput.stripTags. split; [apply strip_hasTag |].
    split; [apply strip_fixed, strip_hasTag |].
    split; [apply strip_length | apply strip_fixed].
Qed.

Lemma input_is_plain_text_witness :
  snd (ChatInput.handleInput (Some (str "a < b"))) = str "a < b"
  /\ snd (ChatInput.handleInput (Some (str "<b>bold</b> and <<i>>"))) = str "bold and >".
Proof.
  split.
  - apply (proj2 (proj2 (proj2 (proj2 (proj2
             (input_is_plain_text (str "a < b"))))))). reflexivity.
  - rewrite (proj1 (input_is_plain_text (str "<b>bold</b> and <<i>>"))).
    reflexivity.
Defined.

(* ================================================================== *)
(** ** The clarify route *)
(* ================================================================== *)

Section Route.

Variable openai : Server.CompletionRequest -> Server.Completion.

Lemma orElse_truthy (a : option jsstring) (b : jsstring) :
  b <> [] -> Server.orElse a b <> [].
Proof.
  intros Hb. unfold Server.orElse. destruct a as [[| c s] |]; simpl; congruence.
Qed.

Lemma clarification_text_nonempty
    (selectedText userQuestion : jsstring) (context : option (list jsstring))
    (r : jsstring) :
  fst (Server.generateClarificationResponse openai
         selectedText userQuestion context) = inl r ->
  r <> [].
Proof.
  unfold Server.generateClarificationResponse.
  destruct (openai _) as [| c]; simpl; intros H; [discriminate |].
  injection H as <-. apply orElse_truthy. discriminate.
Qed.

(** X16: the functions of [utils/openai.ts] never return an empty
    text: a null or empty content is replaced by the fixed excuse.
    And whatever the completion call throws, the error they throw is
    the one fixed error of each. *)
Theorem generated_text_is_never_empty
    (selectedText userQuestion : jsstring) (context : option (list jsstring))
    (msgs : list (jsstring * jsstring)) :
  (forall r,
     fst (Server.generateClarificationResponse openai
            selectedText userQuestion context) = inl r
     \/ fst (Server.generateChatResponse openai msgs) = inl r ->
     r <> [])
  /\ (forall e,
       fst (Server.generateClarificationResponse openai
              selectedText userQuestion context) = inr e ->
       e = str "Failed to generate clarification")
  /\ (forall e,
       fst (Server.generateChatResponse openai msgs) = inr e ->
       e = str "Failed to generate AI response").
Proof.
  split; [| split].
  - intros r [H | H]; [eapply clarification_text_nonempty, H |].
    unfold Server.generateChatResponse in H.
    destruct (openai _) as [| c]; simpl in H; [discriminate |].
    injection H as <-. apply orElse_truthy. discriminate.
  - unfold Server.generateClarificationResponse. intros e H.
    destruct (openai _) as [| c]; simpl in H; [| discriminate].
    now injection H as <-.
  - unfold Server.generateChatResponse. intros e H.
    destruct (openai _) as [| c]; simpl in H; [| discriminate].
    now injection H as <-.
Qed.

Lemma generateFromJson_nonempty (a b c : option Server.Json) (r : jsstring) :
  fst (Server.generateFromJson openai a b c) = inl r -> r <> [].
Proof.
  unfold Server.generateFromJson.
  destruct (Server.contextTexts c) as [context |]; [| discriminate].
  destruct (Server.textOf a) as [text |]; [| discriminate].
  destruct (Server.textOf b) as [question |]; [| discriminate].
  apply clarification_text_nonempty.
Qed.

Lemma POST_cases (req : option Server.Json) :
  ((req = None \/ req = Some Server.jnull)
   /\ forall service,
        Server.POST service req =
        ({| Server.http_status := 500;
            Server.payload :=
              Server.error_json (str "Failed to generate clarification") |},
         [str "Clarification API error:"]))
  \/ (exists v, req = Some v /\ v <> Server.jnull
        /\ (Server.falsy (Server.property (str "selectedText") v) = true
            \/ Server.falsy (Server.property (str "userQuestion") v) = true)
        /\ forall service,
             Server.POST service req =
             ({| Server.http_status := 400;
                 Server.payload :=
                   Server.error_json
                     (str "Selected text and user question are required") |}, []))
  \/ (exists v, req = Some v /\ v <> Server.jnull
        /\ Server.falsy (Server.property (str "selectedText") v) = false
        /\ Server.falsy (Server.property (str "userQuestion") v) = false
        /\ ((Server.http_status (fst (Server.POST openai req)) = 500
             /\ exists e, Server.payload (fst (Server.POST openai req))
                          = Server.error_json e)
            \/ (Server.http_status (fst (Server.POST openai req)) = 200
                /\ exists r, r <> []
                     /\ Server.payload (fst (Server.POST openai req))
                        = Server.response_json r))).
Proof.
  destruct req as [v |].
  2: { left. split; [now left |]. reflexivity. }
  destruct (Server.falsy (Server.property (str "selectedText") v)) eqn:Hs.
  { destruct v; try (right; left; eexists; split; [reflexivity |];
                     split; [discriminate |]; split; [now left |];
                     intros service; cbn [Server.POST]; rewrite Hs; reflexivity).
    left. split; [now right |]. reflexivity. }
  destruct (Server.falsy (Server.property (str "userQuestion") v)) eqn:Hq.
  { destruct v; try (right; left; eexists; split; [reflexivity |];
                     split; [discriminate |]; split; [now right |];
                     intros service; cbn [Server.POST]; rewrite Hs, Hq; reflexivity).
    left. split; [now right |]. reflexivity. }
  right. right. exists v. split; [reflexivity |].
  assert (Hv : v <> Server.jnull) by (intros ->; discriminate Hs).
  split; [exact Hv |]. split; [exact Hs |]. split; [exact Hq |].
  assert (E : Server.POST openai (Some v) =
              match Server.generateFromJson openai
                      (Server.property (str "selectedText") v)
                      (Server.property (str "userQuestion") v)
                      (Server.property (str "conversationContext") v) with
              | (inl r, l) =>
                  ({| Server.http_status := 200;
                      Server.payload := Server.response_json r |}, l)
              | (inr _, l) =>
                  ({| Server.http_status := 500;
                      Server.payload :=
                        Server.error_json (str "Failed to generate clarification") |},
                   l ++ [str "Clarification API error:"])
              end).
  { destruct v; try (cbn [Server.POST]; rewrite Hs, Hq; reflexivity).
    now contradiction Hv. }
  rewrite E.
  destruct (Server.generateFromJson openai _ _ _) as [[r | e] l] eqn:G.
  - right. split; [reflexivity |]. exists r. split; [| reflexivity].
    eapply generateFromJson_nonempty. rewrite G. reflexivity.
  - left. split; [reflexivity |]. eexists. reflexivity.
Qed.

(** X17: what the clarify route answers. The status is 200, 400 or
    500. It is 400 exactly when the body is JSON other than [null]
    and the value read from it has no property [selectedText] or no
    property [userQuestion] that counts as true: the member is
    missing, or it is [null], [false], zero or the empty string. So
    every body that is a number, a string, a boolean or an array is
    answered 400, and so is an object that lacks one of the two
    members. At a 400 the completion service is not consulted: the
    answer is the same whatever the service would do. A body that is
    no JSON, or that is [null], is answered 500, whatever the
    service. A 200 carries a response that is not empty; any other
    status carries an error and no response. *)
Theorem route_answers (req : option Server.Json) :
  let r := fst (Server.POST openai req) in
  (Server.http_status r = 200 \/ Server.http_status r = 400
   \/ Server.http_status r = 500)
  /\ (Server.http_status r = 400 <->
      exists v, req = Some v /\ v <> Server.jnull
                /\ (Server.falsy (Server.property (str "selectedText") v) = true
                    \/ Server.falsy (Server.property (str "userQuestion") v) = true))
  /\ (Server.http_status r = 400 ->
      forall service, Server.POST service req = Server.POST openai req)
  /\ ((exists v, req = Some v
                 /\ match v with
                    | Server.jnull | Server.jobject _ => False
                    | _ => True
                    end) ->
      Server.http_status r = 400)
  /\ ((exists name members, req = Some (Server.jobject members)
                 /\ (name = str "selectedText" \/ name = str "userQuestion")
                 /\ Server.member name members = None) ->
      Server.http_status r = 400)
  /\ (req = None \/ req = Some Server.jnull ->
      Server.http_status r = 500
      /\ forall service, Server.POST service req = Server.POST openai req)
  /\ (Server.http_status r = 200 ->
      exists s, s <> [] /\ Server.payload r = Server.response_json s)
  /\ (Server.http_status r <> 200 ->
      exists e, Server.payload r = Server.error_json e).
Proof.
  intros r. subst r.
  assert (Hshape : forall v,
            match v with
            | Server.jnull | Server.jobject _ => False
            | _ => True
            end ->
            Server.falsy (Server.property (str "selectedText") v) = true).
  { intros v Hv. destruct v; try reflexivity; contradiction. }
  assert (Hlack : forall name members,
            name = str "selectedText" \/ name = str "userQuestion" ->
            Server.member name members = None ->
            Server.falsy (Server.property (str "selectedText")
                            (Server.jobject members)) = true
            \/ Server.falsy (Server.property (str "userQuestion")
                               (Server.jobject members)) = true).
  { intros name members [-> | ->] Hm; [left | right];
      cbn [Server.property]; now rewrite Hm. }
  destruct (POST_cases req)
    as [(Hreq & Hall)
       | [(v & -> & Hv & Hf & Hall)
         | (v & -> & Hv & Hs & Hq & [(H5 & e & He) | (H2 & s & Hne & Hp)])]].
  - rewrite (Hall openai). cbn [fst Server.http_status Server.payload].
    split; [right; right; reflexivity |].
    split; [split; [discriminate
                   | intros (v & Hj & Hv & _); destruct Hreq; congruence] |].
    split; [discriminate |].
    split; [intros (v & Hj & Hv); destruct Hreq as [-> | ->];
            [discriminate Hj | injection Hj as <-; contradiction] |].
    split; [intros (name & members & Hj & _); destruct Hreq; congruence |].
    split; [intros _; split; [reflexivity | intros service; apply Hall] |].
    split; [discriminate |].
    intros _. eexists. reflexivity.
  - rewrite (Hall openai). cbn [fst Server.http_status Server.payload].
    split; [right; left; reflexivity |].
    split; [split; [intros _; now exists v | reflexivity] |].
    split; [intros _ service; apply Hall |].
    split; [reflexivity |].
    split; [reflexivity |].
    split; [intros [H | H]; congruence |].
    split; [discriminate |].
    intros _. eexists. reflexivity.
  - split; [right; right; exact H5 |].
    split; [split; [intros H; rewrite H5 in H; discriminate
                   | intros (v' & [= <-] & _ & [H | H]); congruence] |].
    split; [intros H; rewrite H5 in H; discriminate |].
    split; [intros (v' & [= <-] & Hsh); apply Hshape in Hsh; congruence |].
    split; [intros (name & members & [= ->] & Hn & Hm);
            destruct (Hlack name members Hn Hm); congruence |].
    split; [intros [H | H]; congruence |].
    split; [intros H; rewrite H5 in H; discriminate |].
    intros _. now exists e.
  - split; [left; exact H2 |].
    split; [split; [intros H; rewrite H2 in H; discriminate
                   | intros (v' & [= <-] & _ & [H | H]); congruence] |].
    split; [intros H; rewrite H2 in H; discriminate |].
    split; [intros (v' & [= <-] & Hsh); apply Hshape in Hsh; congruence |].
    split; [intros (name & members & [= ->] & Hn & Hm);
            destruct (Hlack name members Hn Hm); congruence |].
    split; [intros [H | H]; congruence |].
    split; [intros _; now exists s |].
    intros H. congruence.
Qed.


End Route.

Lemma generated_text_is_never_empty_witness :
  Server.clarificationFallback <> []
  /\ str "Failed to generate clarification" = str "Failed to generate clarification".
Proof.
  split.
  - apply (proj1 (generated_text_is_never_empty silentService picked question None [])
             Server.clarificationFallback).
    left. reflexivity.
  - apply (proj1 (proj2 (generated_text_is_never_empty brokenService
                           picked question None []))).
    reflexivity.
Defined.

Lemma route_answers_witness :
  Server.http_status
    (fst (Server.POST helpfulService (Some (Server.jnumber false (str "5"))))) = 400
  /\ Server.POST brokenService (Some (Server.jnumber false (str "5")))
     = Server.POST helpfulService (Some (Server.jnumber false (str "5")))
  /\ Server.http_status
       (fst (Server.POST helpfulService
               (Some (Server.jobject [(str "selectedText", Server.jstring picked)]))))
     = 400
  /\ Server.http_status (fst (Server.POST helpfulService (Some Server.jnull))) = 500.
Proof.
  pose proof (route_answers helpfulService (Some (Server.jnumber false (str "5"))))
    as (_ & _ & Hsame & Hshape & _).
  pose proof (route_answers helpfulService
                (Some (Server.jobject [(str "selectedText", Server.jstring picked)])))
    as (_ & _ & _ & _ & Hlack & _).
  pose proof (route_answers helpfulService (Some Server.jnull))
    as (_ & _ & _ & _ & _ & Hnull & _).
  split; [apply Hshape; eexists; split; [reflexivity | exact I] |].
  split; [apply Hsame, Hshape; eexists; split; [reflexivity | exact I] |].
  split; [apply Hlack; exists (str "userQuestion"); eexists;
          split; [reflexivity | split; [now right | reflexivity]] |].
  apply Hnull. now right.
Defined.

(** The bodies [5], a text, an empty array and [true] are answered
    400, an unreadable body and [null] 500; a member that is not a
    string goes into the prompt as its text, and a context that is
    not an array ends the call with the fixed error. *)
Lemma route_examples :
  map (fun v => Server.http_status (fst (Server.POST helpfulService v)))
      [Some (Server.jnumber false (str "5")); Some (Server.jstring (str "text"));
       Some (Server.jarray []); Some (Server.jbool true);
       None; Some Server.jnull;
       Some (Server.jobject [(str "selectedText", Server.jnumber true (str "0"));
                             (str "userQuestion", Server.jstring question)]);
       Some (Server.jobject [(str "selectedText", Server.jnumber false (str "7"));
                             (str "userQuestion", Server.jstring question)]);
       Some (Server.jobject [(str "selectedText", Server.jstring picked);
                             (str "userQuestion", Server.jstring question);
                             (str "conversationContext", Server.jstring (str "x"))])]
  = [400; 400; 400; 400; 500; 500; 400; 200; 500].
Proof. vm_compute. reflexivity. Qed.


(* ================================================================== *)
(** ** The theme of the page *)
(* ================================================================== *)

(** X19: the theme survives a reload. After a toggle the theme is
    [light] or [dark], it is what the storage holds, and the document
    has the class [dark] exactly when the theme is [dark]; loading
    the page again gives the same theme and the same class, whatever
    the system prefers. Two toggles give back a theme that was
    [light] or [dark]. *)
Theorem theme_survives_reload (systemPrefersDark : bool) (p : Home.Page) :
  let q := Home.toggleTheme p in
  (Home.theme q = str "light" \/ Home.theme q = str "dark")
  /\ Home.savedTheme q = Some (Home.theme q)
  /\ Home.darkClass q = eqb (Home.theme q) (str "dark")
  /\ Home.theme (Home.reload systemPrefersDark q) = Home.theme q
  /\ Home.darkClass (Home.reload systemPrefersDark q) = Home.darkClass q
  /\ (Home.theme p = str "light" \/ Home.theme p = str "dark" ->
      Home.theme (Home.toggleTheme q) = Home.theme p).
Proof.
  intros q. subst q. unfold Home.toggleTheme, Home.reload, Home.onMount.
  cbn [Home.theme Home.savedTheme Home.darkClass].
  destruct (eqb (Home.theme p) (str "light")) eqn:E.
  - repeat split; auto. intros _. apply eqb_eq in E. now rewrite E.
  - repeat split; auto. intros [H | H]; [| now rewrite H].
    rewrite H, eqb_refl in E. discriminate.
Qed.

Lemma theme_survives_reload_witness :
  Home.theme (Home.toggleTheme (Home.toggleTheme firstVisit)) = str "dark"
  /\ Home.theme (Home.reload true (Home.toggleTheme firstVisit)) = str "light".
Proof.
  split.
  - apply (proj2 (proj2 (proj2 (proj2 (proj2
             (theme_survives_reload true firstVisit)))))).
    right. reflexivity.
  - rewrite (proj1 (proj2 (proj2 (proj2 (theme_survives_reload true firstVisit))))).
    reflexivity.
Defined.

(* ================================================================== *)
(** ** Numbered items in Markdown *)
(* ================================================================== *)

Lemma scan_digits (b ds t : jsstring) :
  forallb Markdown.isDigit ds = true ->
  Markdown.scan (Markdown.inDigits b) (ds ++ t)
  = Markdown.scan (Markdown.inDigits (b ++ ds)) t.
Proof.
  revert b. induction ds as [| d ds IH]; intros b H.
  - now rewrite app_nil_r.
  - cbn [forallb] in H. apply andb_prop in H. destruct H as [Hd Hds].
    cbn [app Markdown.scan]. rewrite Hd, IH by assumption.
    now rewrite <- app_assoc.
Qed.

Lemma scan_lineStart_digits (ds t : jsstring) :
  ds <> [] -> forallb Markdown.isDigit ds = true ->
  Markdown.scan Markdown.lineStart (ds ++ t)
  = Markdown.scan (Markdown.inDigits ds) t.
Proof.
  destruct ds as [| d ds]; [congruence |]. intros _ H.
  cbn [forallb] in H. apply andb_prop in H. destruct H as [Hd Hds].
  cbn [app Markdown.scan]. rewrite Hd. now rewrite scan_digits.
Qed.

Lemma scan_inLine_copy (u t : jsstring) :
  forallb (fun c => negb (Markdown.isLineTerminator c)) u = true ->
  Markdown.scan Markdown.inLine (u ++ t) = u ++ Markdown.scan Markdown.inLine t.
Proof.
  induction u as [| c u IH]; intros H; [reflexivity |].
  cbn [forallb] in H. apply andb_prop in H. destruct H as [Hc Hu].
  cbn [app Markdown.scan]. unfold Markdown.afterUnit.
  apply negb_true_iff in Hc. rewrite Hc. now rewrite IH.
Qed.

Lemma digit_not_terminator (c : codeunit) :
  Markdown.isDigit c = true -> Markdown.isLineTerminator c = false.
Proof.
  unfold Markdown.isDigit, Markdown.isLineTerminator. intros H.
  apply andb_prop in H. destruct H as [H1 H2].
  apply N.leb_le in H1, H2.
  repeat (apply orb_false_intro); apply N.eqb_neq; lia.
Qed.

Lemma digits_not_terminators (ds : jsstring) :
  forallb Markdown.isDigit ds = true ->
  forallb (fun c => negb (Markdown.isLineTerminator c)) ds = true.
Proof.
  induction ds as [| d ds IH]; [reflexivity |].
  cbn [forallb]. intros H. apply andb_prop in H. destruct H as [Hd Hds].
  now rewrite (digit_not_terminator d Hd), IH.
Qed.

(** Scanning what a scan wrote writes it again. *)
Lemma scan_scan (s : jsstring) :
  Markdown.scan Markdown.lineStart (Markdown.scan Markdown.lineStart s)
    = Markdown.scan Markdown.lineStart s
  /\ Markdown.scan Markdown.inLine (Markdown.scan Markdown.inLine s)
    = Markdown.scan Markdown.inLine s
  /\ forall ds, ds <> [] -> forallb Markdown.isDigit ds = true ->
       Markdown.scan Markdown.lineStart (Markdown.scan (Markdown.inDigits ds) s)
       = Markdown.scan (Markdown.inDigits ds) s.
Proof.
  induction s as [| c s (IH1 & IH2 & IH3)].
  - split; [reflexivity |]. split; [reflexivity |]. intros ds Hne Hds.
    cbn [Markdown.scan]. rewrite <- (app_nil_r ds) at 1.
    rewrite scan_lineStart_digits by assumption. reflexivity.
  - assert (Hafter : Markdown.scan (Markdown.afterUnit c)
                       (Markdown.scan (Markdown.afterUnit c) s)
                     = Markdown.scan (Markdown.afterUnit c) s).
    { unfold Markdown.afterUnit. now destruct (Markdown.isLineTerminator c). }
    split; [| split].
    + cbn [Markdown.scan]. destruct (Markdown.isDigit c) eqn:Hd.
      * apply IH3; [discriminate | cbn [forallb]; now rewrite Hd].
      * cbn [Markdown.scan]. rewrite Hd. now rewrite Hafter.
    + cbn [Markdown.scan]. now rewrite Hafter.
    + intros ds Hne Hds. cbn [Markdown.scan].
      destruct (Markdown.isDigit c) eqn:Hd.
      * apply IH3; [now destruct ds |].
        rewrite forallb_app, Hds. cbn [forallb]. now rewrite Hd.
      * destruct (N.eqb c Markdown.closing) eqn:Hc.
        -- replace ([Markdown.star; Markdown.star] ++ ds
                      ++ [Markdown.closing; Markdown.star; Markdown.star]
                      ++ Markdown.scan Markdown.inLine s)
             with (Markdown.star
                     :: (Markdown.star :: ds
                           ++ [Markdown.closing; Markdown.star; Markdown.star])
                        ++ Markdown.scan Markdown.inLine s)
             by (cbn [app]; now rewrite <- app_assoc).
           change (Markdown.scan Markdown.lineStart (Markdown.star :: ?t))
             with (Markdown.star :: Markdown.scan Markdown.inLine t).
           f_equal. rewrite scan_inLine_copy; [now rewrite IH2 |].
           cbn [forallb]. rewrite forallb_app, (digits_not_terminators ds Hds).
           reflexivity.
        -- rewrite scan_lineStart_digits by assumption.
           cbn [Markdown.scan]. rewrite Hd, Hc. now rewrite Hafter.
Qed.

Lemma scan_unstarred (st : Markdown.Scan) (s : jsstring) :
  Markdown.unstarred (Markdown.scan st s) =
  Markdown.unstarred
    (match st with Markdown.inDigits ds => ds | _ => [] end ++ s).
Proof.
  unfold Markdown.unstarred, jsstring, codeunit in *.
  set (f := fun c : N => negb (N.eqb c Markdown.star)).
  assert (Hstar : f Markdown.star = false) by reflexivity.
  assert (Hclosing : f Markdown.closing = true) by reflexivity.
  revert st. induction s as [| c s IH]; intros st.
  - destruct st; cbn [Markdown.scan]; now rewrite ?app_nil_r.
  - assert (Hrest : filter f (Markdown.scan (Markdown.afterUnit c) s) = filter f s).
    { rewrite IH. unfold Markdown.afterUnit.
      now destruct (Markdown.isLineTerminator c). }
    destruct st as [| ds |]; cbn [Markdown.scan app].
    + destruct (Markdown.isDigit c); [rewrite IH; reflexivity |].
      cbn [filter]. now rewrite Hrest.
    + destruct (Markdown.isDigit c).
      * rewrite IH, <- app_assoc. reflexivity.
      * destruct (N.eqb c Markdown.closing) eqn:Hc.
        -- apply N.eqb_eq in Hc. subst c.
           cbn [filter]. rewrite Hstar, !filter_app. cbn [filter].
           rewrite Hstar, Hclosing.
           change (Markdown.afterUnit Markdown.closing) with Markdown.inLine in Hrest.
           f_equal. f_equal. exact Hrest.
        -- rewrite !filter_app. cbn [filter]. f_equal.
           destruct (f c); [f_equal |]; exact Hrest.
    + cbn [filter]. now rewrite Hrest.
Qed.

Lemma scan_no_closing (st : Markdown.Scan) (s : jsstring) :
  existsb (N.eqb Markdown.closing) s = false ->
  Markdown.scan st s =
  match st with Markdown.inDigits ds => ds | _ => [] end ++ s.
Proof.
  revert st. induction s as [| c s IH]; intros st H.
  - destruct st; cbn [Markdown.scan]; now rewrite ?app_nil_r.
  - cbn [existsb] in H. apply orb_false_elim in H. destruct H as [Hc Hs].
    rewrite N.eqb_sym in Hc.
    assert (Hrest : Markdown.scan (Markdown.afterUnit c) s = s).
    { rewrite IH by assumption. unfold Markdown.afterUnit.
      now destruct (Markdown.isLineTerminator c). }
    destruct st as [| ds |]; cbn [Markdown.scan app].
    + destruct (Markdown.isDigit c); [now rewrite IH | now rewrite Hrest].
    + rewrite Hc. destruct (Markdown.isDigit c).
      * rewrite IH, <- app_assoc by assumption. reflexivity.
      * now rewrite Hrest.
    + now rewrite Hrest.
Qed.

(** X20: the rewriting of numbered items before the Markdown is
    rendered only adds asterisks: without them the text is the
    content without its asterisks. A content with no closing
    parenthesis is left as it is, and rewriting a second time changes
    nothing, so what was made bold is not made bold again. *)
Theorem numbered_items_only_gain_stars (content : jsstring) :
  Markdown.unstarred (Markdown.processedContent content)
    = Markdown.unstarred content
  /\ Markdown.processedContent (Markdown.processedContent content)
     = Markdown.processedContent content
  /\ (existsb (N.eqb Markdown.closing) content = false ->
      Markdown.processedContent content = content).
Proof.
  unfold Markdown.processedContent. split; [| split].
  - now rewrite scan_unstarred.
  - apply scan_scan.
  - intros H. now rewrite scan_no_closing.
Qed.

Lemma numbered_items_only_gain_stars_witness :
  Markdown.processedContent (str "Gradient descent") = str "Gradient descent"
  /\ Markdown.processedContent (str "12) first" ++ [10%N] ++ str "2 (b) 3)")
     = str "**12)** first" ++ [10%N] ++ str "2 (b) 3)".
Proof.
  split; [| reflexivity].
  apply (proj2 (proj2 (numbered_items_only_gain_stars (str "Gradient descent")))).
  reflexivity.
Defined.
